(** * Html Scanner: a shallow embedding of the two variants of [main]

    The program walks a directory recursively, reads every [.html] / [.htm]
    file line by line, records which command-line keywords occur in it, and
    writes a report grouped by keyword.

    - [std::string] is [string] (a sequence of 8-bit characters);
    - [std::set<std::string>] is a strictly ascending list of strings and
      [std::map<std::string, std::vector<std::string>>] a list of pairs with
      strictly ascending keys, so that iterating the container is reading the
      list from left to right;
    - the file system is an explicit environment [Env];
    - the three output streams are lists of [std::endl]-terminated records. *)

From Stdlib Require Import String Ascii List Bool Arith ZArith Lia.
From Stdlib Require Import Sorted Permutation OrderedTypeEx.
Import ListNotations.
Open Scope string_scope.
Open Scope list_scope.

Set Implicit Arguments.

(** ** Characters and strings *)

(** [std::tolower] on an [unsigned char] in the "C" locale: the 26 capital
    letters 'A'..'Z' (65..90) move to 'a'..'z', every other byte is kept. *)
Definition tolower (c : ascii) : ascii :=
  let n := nat_of_ascii c in
  if ((65 <=? n) && (n <=? 90))%nat then ascii_of_nat (n + 32) else c.

(** [ToLower]: [std::transform] of [tolower] over a copy of the string. *)
Fixpoint ToLower (str : string) : string :=
  match str with
  | EmptyString => EmptyString
  | String c rest => String (tolower c) (ToLower rest)
  end.

(** [haystack.find(needle)]: the first position at which [needle] occurs in
    [haystack]; [None] stands for [std::string::npos]. *)
Definition find (haystack needle : string) : option nat :=
  String.index 0 needle haystack.

(** The test of the scan loop, [ToLower(line).find(ToLower(keyword)) != npos]. *)
Definition line_matches (keyword line : string) : bool :=
  match find (ToLower line) (ToLower keyword) with
  | Some _ => true
  | None => false
  end.

(** The test of the second variant, [line.find(keyword) != npos]. *)
Definition line_matches_cs (keyword line : string) : bool :=
  match find line keyword with
  | Some _ => true
  | None => false
  end.

(** [needle] occurs in [haystack]: [haystack = pre ++ needle ++ post]. *)
Definition substring_of (needle haystack : string) : Prop :=
  exists pre post, haystack = (pre ++ needle ++ post)%string.

(** ** Reading a file line by line *)

Definition newline : ascii := "010"%char.

(** [std::getline(stream, line)] on the unread rest of a stream: fails at end
    of file; otherwise extracts characters up to the next newline, which is
    consumed and not stored, or up to the end of the stream. *)
Fixpoint take_line (s : string) : string * string :=
  match s with
  | EmptyString => (EmptyString, EmptyString)
  | String c rest =>
      if Ascii.eqb c newline then (EmptyString, rest)
      else let (l, r) := take_line rest in (String c l, r)
  end.

Definition getline (s : string) : option (string * string) :=
  match s with
  | EmptyString => None
  | _ => Some (take_line s)
  end.

(** The successive values of [line] in [while (std::getline(fileStream, line))]. *)
Fixpoint getlines (s : string) : list string :=
  match s with
  | EmptyString => []
  | String c rest =>
      if Ascii.eqb c newline then EmptyString :: getlines rest
      else match getlines rest with
           | [] => [String c EmptyString]
           | l :: ls => String c l :: ls
           end
  end.

(** ** Ordered containers *)

(** [keywordsFoundInFile.insert(k)] on a [std::set<std::string>]. *)
Fixpoint set_insert (k : string) (s : list string) : list string :=
  match s with
  | [] => [k]
  | x :: s' =>
      match String.compare k x with
      | Lt => k :: s
      | Eq => s
      | Gt => x :: set_insert k s'
      end
  end.

Definition MatchIndex := list (string * list string).

(** [foundFilesByKeyword[k].push_back(v)]: [operator[]] creates an empty
    vector under a new key, at the key's place in the order. *)
Fixpoint map_push_back (k v : string) (m : MatchIndex) : MatchIndex :=
  match m with
  | [] => [(k, [v])]
  | (x, fs) :: m' =>
      match String.compare k x with
      | Lt => (k, [v]) :: m
      | Eq => (x, fs ++ [v]) :: m'
      | Gt => (x, fs) :: map_push_back k v m'
      end
  end.

(** The vector stored under [k], empty when [k] is not a key. *)
Fixpoint lookup (k : string) (m : MatchIndex) : list string :=
  match m with
  | [] => []
  | (x, fs) :: m' => if String.eqb k x then fs else lookup k m'
  end.

Definition keys (m : MatchIndex) : list string := map fst m.

(** ** The file system *)

Definition slash : ascii := "/"%char.
Definition dot : ascii := "."%char.

(** [path::filename()]: what follows the last directory separator. *)
Fixpoint filename (p : string) : string :=
  match p with
  | EmptyString => EmptyString
  | String c rest =>
      if existsb (Ascii.eqb slash) (list_ascii_of_string rest) then filename rest
      else if Ascii.eqb c slash then rest else p
  end.

(** The suffix of [s] that starts at its last period, if it has one. *)
Fixpoint last_dot (s : string) : option string :=
  match s with
  | EmptyString => None
  | String c rest =>
      match last_dot rest with
      | Some e => Some e
      | None => if Ascii.eqb c dot then Some s else None
      end
  end.

(** [path::extension()] (C++17): empty for the special names [.] and [..] and
    for a file name without a period; a period that is the first character of
    the file name does not start an extension; otherwise the extension is the
    file name from its last period on. *)
Definition extension (p : string) : string :=
  let f := filename p in
  if String.eqb f "." || String.eqb f ".." then EmptyString
  else match f with
       | EmptyString => EmptyString
       | String _ rest =>
           match last_dot rest with
           | Some e => e
           | None => EmptyString
           end
       end.

(** One entry surfaced by [std::filesystem::recursive_directory_iterator]:
    [ifstream] is [None] when [fileStream.is_open()] is false, and otherwise
    the bytes the stream delivers. *)
Record dir_entry : Type := {
  path : string;
  is_regular_file : bool;
  ifstream : option string
}.

(** How the range-for over the iterator ends: normally, or by one of the two
    exceptions the [try] block catches ([what] is the exception's text). *)
Inductive iteration_end : Type :=
| end_of_directory
| filesystem_error (what : string)
| other_exception (what : string).

Record Env : Type := {
  is_directory : string -> bool;
  absolute : string -> string;
  recursive_directory_iterator : string -> list dir_entry * iteration_end;
  ofstream_is_open : string -> bool
}.

(** What a run leaves behind. Each stream is the list of its
    [std::endl]-terminated records (the bytes written are each record
    followed by a newline); [output_file] is the file created through
    [std::ofstream], with its name. *)
Record Outcome : Type := {
  exit_code : Z;
  cout : list string;
  cerr : list string;
  output_file : option (string * list string)
}.

Definition dquote : ascii := "034"%char.
Definition backslash : ascii := "092"%char.

(** [out << '"' << s << '"'] *)
Definition quoted (s : string) : string :=
  String dquote (s ++ String dquote EmptyString)%string.

Definition PrintUsage (programName : string) : list string :=
  [ ("Usage: " ++ programName
       ++ " <directory_to_scan> <keyword1> [keyword2] [keyword3] ...")%string;
    ("Example: " ++ programName ++ " "
       ++ quoted ("C:" ++ String backslash "MyWebsite")
       ++ " form gallery table")%string;
    "An optional output file can be specified with the /o flag.";
    ("Example with output file: " ++ programName ++ " "
       ++ quoted ("C:" ++ String backslash "MyWebsite") ++ " /o "
       ++ quoted "results.txt" ++ " form gallery")%string ].

(** ** Argument parsing *)

Record ParseState : Type := {
  scanDirectory : string;
  outputFileName : string;
  keywords : list string;
  outputFlagFound : bool
}.

Definition parse_init : ParseState :=
  {| scanDirectory := EmptyString;
     outputFileName := "output.txt";
     keywords := [];
     outputFlagFound := false |}.

Definition is_output_flag (arg : string) : bool :=
  String.eqb arg "/o" || String.eqb arg "/O".

(** The body of the parsing loop at index [i] with [arg = argValues[i]]. *)
Definition parse_step (i : nat) (arg : string) (st : ParseState) : ParseState :=
  if Nat.eqb i 1 then
    {| scanDirectory := arg;
       outputFileName := outputFileName st;
       keywords := keywords st;
       outputFlagFound := outputFlagFound st |}
  else if outputFlagFound st then
    {| scanDirectory := scanDirectory st;
       outputFileName := arg;
       keywords := keywords st;
       outputFlagFound := false |}
  else if is_output_flag arg then
    {| scanDirectory := scanDirectory st;
       outputFileName := outputFileName st;
       keywords := keywords st;
       outputFlagFound := true |}
  else
    {| scanDirectory := scanDirectory st;
       outputFileName := outputFileName st;
       keywords := keywords st ++ [arg];
       outputFlagFound := outputFlagFound st |}.

(** [for (int i = ...; i < argCount; ++i)] over the arguments from index [i]. *)
Fixpoint parse_loop (i : nat) (args : list string) (st : ParseState) : ParseState :=
  match args with
  | [] => st
  | arg :: rest => parse_loop (S i) rest (parse_step i arg st)
  end.

(** The whole loop: it starts at index 1, after the program name. *)
Definition parse_args (argValues : list string) : ParseState :=
  parse_loop 1 (tl argValues) parse_init.

(** ** Scanning *)

Definition is_html_candidate (entry : dir_entry) : bool :=
  is_regular_file entry
  && (String.eqb (extension (path entry)) ".html"
      || String.eqb (extension (path entry)) ".htm").

Record ScanState : Type := {
  foundFilesByKeyword : MatchIndex;
  scan_out : list string;
  scan_err : list string
}.

Definition scan_init : ScanState :=
  {| foundFilesByKeyword := []; scan_out := []; scan_err := [] |}.

Definition say (line : string) (st : ScanState) : ScanState :=
  {| foundFilesByKeyword := foundFilesByKeyword st;
     scan_out := scan_out st ++ [line];
     scan_err := scan_err st |}.

Definition warn (line : string) (st : ScanState) : ScanState :=
  {| foundFilesByKeyword := foundFilesByKeyword st;
     scan_out := scan_out st;
     scan_err := scan_err st ++ [line] |}.

(** The body of [for (const auto& foundKeyword : keywordsFoundInFile)]. *)
Definition record_found (p : string) (st : ScanState) (foundKeyword : string)
  : ScanState :=
  {| foundFilesByKeyword := map_push_back foundKeyword p (foundFilesByKeyword st);
     scan_out := scan_out st
       ++ [("Found " ++ quoted foundKeyword ++ " in: " ++ p)%string];
     scan_err := scan_err st |}.

(** The two programs of the repository are one text up to the substring test
    and the [[DEBUG]] records: [debug] and [matches] are what differs. *)
Section Variant.

Variable debug : bool.
Variable matches : string -> string -> bool.

(** [for (const auto& keyword : keywords)] for one line. *)
Definition scan_line (kws : list string) (found : list string) (line : string)
  : list string :=
  fold_left
    (fun found keyword =>
       if matches keyword line then set_insert keyword found else found)
    kws found.

(** [while (std::getline(fileStream, line))], from an empty set. *)
Definition keywordsFoundInFile (kws : list string) (content : string)
  : list string :=
  fold_left (scan_line kws) (getlines content) [].

(** The body of the range-for over the directory iterator. *)
Definition scan_entry (kws : list string) (st : ScanState) (entry : dir_entry)
  : ScanState :=
  if is_html_candidate entry then
    let st1 :=
      if debug
      then say ("[DEBUG] Scanning file: " ++ path entry)%string st
      else st in
    match ifstream entry with
    | None => warn ("Warning: Could not open file: " ++ path entry)%string st1
    | Some content =>
        fold_left (record_found (path entry))
                  (keywordsFoundInFile kws content) st1
    end
  else st.

Definition scan_directory (kws : list string) (entries : list dir_entry)
  : ScanState :=
  fold_left (scan_entry kws) entries scan_init.

End Variant.

(** ** Reporting *)

Definition separator : string :=
  "==================================================".

Definition report_section (pair : string * list string) : list string :=
  let (keyword, files) := pair in
  [ EmptyString;
    separator;
    ("Files containing keyword: " ++ quoted keyword)%string;
    separator ] ++ files.

Definition report_lines (root : string) (index : MatchIndex) : list string :=
  ("Scan results for directory: " ++ root)%string
  :: match index with
     | [] => [ EmptyString;
               "No files were found containing the specified keywords." ]
     | _ => flat_map report_section index
     end.

(** ** [main] *)

Definition fatal (out err : list string) : Outcome :=
  {| exit_code := 1; cout := out; cerr := err; output_file := None |}.

Definition catch_line (e : iteration_end) : list string :=
  match e with
  | end_of_directory => []
  | filesystem_error what => [("Filesystem error: " ++ what)%string]
  | other_exception what => [("An error occurred: " ++ what)%string]
  end.

(** [", "]-separated quoted keywords of the "Looking for keywords" record. *)
Fixpoint keyword_list (kws : list string) : string :=
  match kws with
  | [] => EmptyString
  | [k] => quoted k
  | k :: rest => (quoted k ++ ", " ++ keyword_list rest)%string
  end.

Definition debug_banner (cfg : ParseState) : list string :=
  [ ("[DEBUG] Directory to scan: " ++ scanDirectory cfg)%string;
    ("[DEBUG] Output file: " ++ outputFileName cfg)%string;
    ("[DEBUG] Keywords to find: "
       ++ String.concat EmptyString
            (map (fun k => (quoted k ++ " ")%string) (keywords cfg)))%string;
    "--------------------------------" ].

Definition banner (env : Env) (cfg : ParseState) : list string :=
  [ ("Scanning directory: " ++ absolute env (scanDirectory cfg))%string;
    ("Output file: " ++ outputFileName cfg)%string;
    ("Looking for keywords: " ++ keyword_list (keywords cfg))%string;
    EmptyString ].

Section Variant_main.

Variable debug : bool.
Variable matches : string -> string -> bool.

(** Everything after the parsing loop. *)
Definition run (programName : string) (cfg : ParseState) (env : Env) : Outcome :=
  if String.eqb (scanDirectory cfg) EmptyString
     || negb (is_directory env (scanDirectory cfg)) then
    fatal [] ("Error: The first argument must be a valid directory."
              :: PrintUsage programName)
  else match keywords cfg with
  | [] =>
    fatal [] ("Error: No keywords were provided." :: PrintUsage programName)
  | _ :: _ =>
    if outputFlagFound cfg then
      fatal [] ("Error: /o flag specified without a filename."
                :: PrintUsage programName)
    else
      let (entries, ending) :=
        recursive_directory_iterator env (scanDirectory cfg) in
      let st := scan_directory debug matches (keywords cfg) entries in
      let out :=
        (if debug then debug_banner cfg else [])
        ++ banner env cfg ++ scan_out st in
      let err := scan_err st ++ catch_line ending in
      if ofstream_is_open env (outputFileName cfg) then
        {| exit_code := 0;
           cout := out ++ [ EmptyString;
                            ("Scan complete. Results saved to "
                               ++ outputFileName cfg)%string ];
           cerr := err;
           output_file :=
             Some (outputFileName cfg,
                   report_lines (absolute env (scanDirectory cfg))
                                (foundFilesByKeyword st)) |}
      else
        fatal out
          (err ++ [("Error: Could not open output file for writing: "
                      ++ outputFileName cfg)%string])
  end.

Definition main_variant (argValues : list string) (env : Env) : Outcome :=
  if (length argValues <? 3)%nat then
    fatal [] (PrintUsage (hd EmptyString argValues))
  else
    run (hd EmptyString argValues) (parse_args argValues) env.

End Variant_main.

(** [src/Html Scanner/Html Scanner.cpp]: case-insensitive, with [[DEBUG]]
    records. *)
Definition main : list string -> Env -> Outcome :=
  main_variant true line_matches.

(** [src/HtmlScanner/Html Scanner.cpp]: the case-sensitive draft. *)
Definition main_draft : list string -> Env -> Outcome :=
  main_variant false line_matches_cs.

(** The index a run of [main] builds from the keywords and the entries. *)
Definition scan (kws : list string) (entries : list dir_entry) : MatchIndex :=
  foundFilesByKeyword (scan_directory true line_matches kws entries).

Definition scan_draft (kws : list string) (entries : list dir_entry) : MatchIndex :=
  foundFilesByKeyword (scan_directory false line_matches_cs kws entries).

(** ** A small site for the examples *)

Definition nl : string := String newline EmptyString.

Definition site : list dir_entry :=
  [ {| path := "./site/a.html"; is_regular_file := true;
       ifstream := Some ("<p>gallery</p>" ++ nl ++ "<FORM action=x>" ++ nl
                         ++ "<form>")%string |};
    {| path := "./site/sub"; is_regular_file := false; ifstream := None |};
    {| path := "./site/sub/b.htm"; is_regular_file := true;
       ifstream := Some ("<div>" ++ nl ++ "GALLERY table" ++ nl)%string |};
    {| path := "./site/INDEX.HTML"; is_regular_file := true;
       ifstream := Some ("<form>" ++ nl)%string |};
    {| path := "./site/c.txt"; is_regular_file := true;
       ifstream := Some "form gallery" |};
    {| path := "./site/locked.html"; is_regular_file := true;
       ifstream := None |};
    {| path := "./site/empty.html"; is_regular_file := true;
       ifstream := Some EmptyString |} ].

Definition site_env : Env :=
  {| is_directory := fun p => String.eqb p "./site";
     absolute := fun p => ("/home/user/" ++ p)%string;
     recursive_directory_iterator := fun _ => (site, end_of_directory);
     ofstream_is_open := fun p => negb (String.eqb p "/proc/denied") |}.

(** A directory without capital letters, and a file system around it. *)
Definition lower_site : list dir_entry :=
  [ {| path := "./lower/a.html"; is_regular_file := true;
       ifstream := Some ("<form>" ++ nl ++ "<table>")%string |} ].

Definition lower_env : Env :=
  {| is_directory := fun _ => true;
     absolute := fun p => p;
     recursive_directory_iterator := fun _ => (lower_site, end_of_directory);
     ofstream_is_open := fun _ => true |}.

(** ** Vocabulary of the statements *)

(** [std::less<std::string>]: the lexicographic order on the bytes. *)
Definition slt (a b : string) : Prop := String.compare a b = Lt.

(** Strictly ascending, as the keys of a [std::map] or [std::set] are. *)
Abbreviation ascending := (StronglySorted slt).

(** Every vector stored in an index built by [map_push_back] is non-empty. *)
Definition inhabited (m : MatchIndex) : Prop :=
  Forall (fun kv => snd kv <> []) m.

Definition index_ok (st : ScanState) : Prop :=
  ascending (keys (foundFilesByKeyword st))
  /\ inhabited (foundFilesByKeyword st).

Definition mem (x : string) (l : list string) : bool :=
  existsb (String.eqb x) l.

(** A decision procedure for [NoDup], used on concrete directory listings. *)
Fixpoint distinct (l : list string) : bool :=
  match l with
  | [] => true
  | x :: l' => negb (mem x l') && distinct l'
  end.

(** Some line the file delivers passes the substring test for [k]. *)
Definition file_matches (matches : string -> string -> bool)
           (k : string) (entry : dir_entry) : Prop :=
  exists content line,
    ifstream entry = Some content
    /\ In line (getlines content)
    /\ matches k line = true.

(** [entry] makes the scan append its path under [k]. *)
Definition listed (matches : string -> string -> bool)
           (kws : list string) (k : string) (entry : dir_entry) : bool :=
  is_html_candidate entry
  && match ifstream entry with
     | Some content => mem k (keywordsFoundInFile matches kws content)
     | None => false
     end.

(** What one iteration of the directory loop appends to the standard output
    of the first variant. *)
Definition entry_out (matches : string -> string -> bool) (kws : list string)
           (entry : dir_entry) : list string :=
  if is_html_candidate entry then
    ("[DEBUG] Scanning file: " ++ path entry)%string
    :: match ifstream entry with
       | Some content =>
           map (fun k => ("Found " ++ quoted k ++ " in: " ++ path entry)%string)
               (keywordsFoundInFile matches kws content)
       | None => []
       end
  else [].

(** ** Further vocabulary *)

(** The character [c] occurs in [s]. *)
Definition has_char (c : ascii) (s : string) : bool :=
  existsb (Ascii.eqb c) (list_ascii_of_string s).

(** The bytes of a text file made of the given lines. *)
Fixpoint unlines (ls : list string) : string :=
  match ls with
  | [] => EmptyString
  | l :: ls' => (l ++ String newline (unlines ls'))%string
  end.

Fixpoint ends_with_newline (s : string) : bool :=
  match s with
  | EmptyString => false
  | String c EmptyString => Ascii.eqb c newline
  | String _ rest => ends_with_newline rest
  end.

(** [l] is [l'] with some elements left out. *)
Inductive subsequence : list string -> list string -> Prop :=
| subsequence_nil : subsequence [] []
| subsequence_skip x l l' : subsequence l l' -> subsequence l (x :: l')
| subsequence_keep x l l' : subsequence l l' -> subsequence (x :: l) (x :: l').

(** The four tests of [main] that precede the scan all pass. *)
Definition valid_arguments (argValues : list string) (env : Env) : bool :=
  (3 <=? length argValues)%nat
  && negb (String.eqb (scanDirectory (parse_args argValues)) EmptyString)
  && is_directory env (scanDirectory (parse_args argValues))
  && match keywords (parse_args argValues) with [] => false | _ => true end
  && negb (outputFlagFound (parse_args argValues)).

Definition is_debug_record (l : string) : bool :=
  String.prefix "[DEBUG] " l.

(** A candidate whose stream cannot be opened. *)
Definition unopenable (entry : dir_entry) : bool :=
  is_html_candidate entry
  && match ifstream entry with
     | Some _ => false
     | None => true
     end.

(** ** Calls that throw outside the [try] block *)

(** [Env] gives the values that [std::filesystem::is_directory] and
    [std::filesystem::absolute] return. Both can also throw
    [filesystem_error] (permission denied on the way to the path, a name
    that is too long, no current directory), and [main] calls them outside
    its [try] block: [Faults] says for which paths they do. *)
Record Faults : Type := {
  is_directory_throws : string -> bool;
  absolute_throws : string -> bool
}.

(** How the process ends: [main] returns, or an exception leaves [main] and
    the process is terminated ([std::terminate]) without an exit code of the
    program's own; [out] and [err] are then the complete records [main] had
    written to the two streams. *)
Inductive Termination : Type :=
| returned (r : Outcome)
| terminated (out err : list string).

Section Variant_process.

Variable debug : bool.
Variable matches : string -> string -> bool.

(** [main] with the two calls that can throw: [is_directory] is called when
    there are at least three arguments and the directory argument is not
    empty ([empty() ||] comes first); [absolute] is called for the first
    time after the four tests have passed and the [[DEBUG]] records, if any,
    have been written. Where neither throws the run is [main_variant]. *)
Definition main_process_variant (argValues : list string) (env : Env)
           (faults : Faults) : Termination :=
  let cfg := parse_args argValues in
  if (length argValues <? 3)%nat then
    returned (main_variant debug matches argValues env)
  else if negb (String.eqb (scanDirectory cfg) EmptyString)
          && is_directory_throws faults (scanDirectory cfg) then
    terminated [] []
  else if valid_arguments argValues env
          && absolute_throws faults (scanDirectory cfg) then
    terminated (if debug then debug_banner cfg else []) []
  else
    returned (main_variant debug matches argValues env).

End Variant_process.

Definition main_process : list string -> Env -> Faults -> Termination :=
  main_process_variant true line_matches.

Definition main_draft_process : list string -> Env -> Faults -> Termination :=
  main_process_variant false line_matches_cs.

(** No call throws. *)
Definition no_faults : Faults :=
  {| is_directory_throws := fun _ => false; absolute_throws := fun _ => false |}.

(** The status of [./deny/priv/inner] cannot be read. *)
Definition deny_faults : Faults :=
  {| is_directory_throws := fun p => String.eqb p "./deny/priv/inner";
     absolute_throws := fun _ => false |}.

(** * Properties *)

(** ** The order of [std::string] *)

(** [slt] is the lexicographic order on the character codes. *)
Lemma slt_lexicographic (a b : string) : slt a b <-> String_as_OT.lt a b.
Proof. apply String_as_OT.cmp_lt. Qed.

Lemma slt_trans (a b c : string) : slt a b -> slt b c -> slt a c.
Proof.
  unfold slt. intros Hab Hbc.
  apply String_as_OT.cmp_lt in Hab. apply String_as_OT.cmp_lt in Hbc.
  apply String_as_OT.cmp_lt. eapply String_as_OT.lt_trans; eassumption.
Qed.

Lemma slt_irrefl (a : string) : ~ slt a a.
Proof.
  unfold slt. intros H.
  assert (E : String.compare a a = Eq) by (apply String_as_OT.cmp_eq; reflexivity).
  congruence.
Qed.

Lemma compare_Gt_slt (a b : string) : String.compare a b = Gt -> slt b a.
Proof.
  unfold slt. intros H. rewrite String.compare_antisym, H. reflexivity.
Qed.

Lemma slt_neq (a b : string) : slt a b -> a <> b.
Proof. intros H E. subst. exact (slt_irrefl H). Qed.

Lemma eqb_refl_false (a b : string) : a <> b -> String.eqb a b = false.
Proof. apply String.eqb_neq. Qed.

(** Case analysis on the three results of a comparison, as facts. *)
Ltac cmp_cases k x H :=
  destruct (String.compare k x) eqn:H;
  [ apply String.compare_eq_iff in H; subst
  | change (slt k x) in H
  | apply compare_Gt_slt in H ].

Lemma ascending_NoDup (s : list string) : ascending s -> NoDup s.
Proof.
  induction 1 as [|x s Hs IH Hx]; constructor; auto.
  intros Hin. rewrite Forall_forall in Hx.
  exact (slt_irrefl (Hx _ Hin)).
Qed.

(** Two ascending lists with the same elements are the same list. *)
Lemma ascending_ext (s t : list string) :
  ascending s -> ascending t -> (forall x, In x s <-> In x t) -> s = t.
Proof.
  intros Hs. revert t.
  induction Hs as [|x s Hs IH Hx]; intros t Ht Hst.
  - destruct t as [|y t]; [reflexivity|].
    exfalso. apply (Hst y). left. reflexivity.
  - destruct t as [|y t].
    + exfalso. apply (Hst x). left. reflexivity.
    + inversion Ht as [|? ? Ht' Hy]; subst.
      rewrite Forall_forall in Hx, Hy.
      assert (x = y) as ->.
      { destruct (proj1 (Hst x) (or_introl eq_refl)) as [E|Hxt]; [congruence|].
        destruct (proj2 (Hst y) (or_introl eq_refl)) as [E|Hys]; [congruence|].
        exfalso. apply (@slt_irrefl x).
        eapply slt_trans; [apply Hx; eassumption | apply Hy; assumption]. }
      f_equal. apply IH; [assumption|].
      intros z. split; intros Hz.
      * destruct (proj1 (Hst z) (or_intror Hz)) as [E|H']; [|assumption].
        subst z. exfalso. exact (slt_irrefl (Hx _ Hz)).
      * destruct (proj2 (Hst z) (or_intror Hz)) as [E|H']; [|assumption].
        subst z. exfalso. exact (slt_irrefl (Hy _ Hz)).
Qed.

(** ** [std::set] *)

Lemma set_insert_In (k x : string) (s : list string) :
  In x (set_insert k s) <-> x = k \/ In x s.
Proof.
  induction s as [|y s IH]; simpl.
  - intuition.
  - cmp_cases k y H; simpl; rewrite ?IH; intuition.
Qed.

Lemma set_insert_ascending (k : string) (s : list string) :
  ascending s -> ascending (set_insert k s).
Proof.
  induction 1 as [|y s Hs IH Hy]; simpl.
  - repeat constructor.
  - cmp_cases k y H.
    + constructor; assumption.
    + constructor; [constructor; assumption|].
      constructor; [assumption|].
      eapply Forall_impl; [|exact Hy]. intros z Hz. eapply slt_trans; eassumption.
    + constructor; [assumption|].
      rewrite Forall_forall in *. intros z Hz.
      apply set_insert_In in Hz. destruct Hz as [->|Hz]; auto.
Qed.

(** ** [std::map] *)

Lemma keys_push_back_In (k v x : string) (m : MatchIndex) :
  In x (keys (map_push_back k v m)) <-> x = k \/ In x (keys m).
Proof.
  induction m as [|[y fs] m IH]; simpl.
  - intuition.
  - cmp_cases k y H; simpl; rewrite ?IH; intuition.
Qed.

Lemma map_push_back_ascending (k v : string) (m : MatchIndex) :
  ascending (keys m) -> ascending (keys (map_push_back k v m)).
Proof.
  induction m as [|[y fs] m IH]; simpl; intros Hm.
  - repeat constructor.
  - inversion Hm as [|? ? Hm' Hy]; subst.
    cmp_cases k y H; simpl.
    + constructor; assumption.
    + constructor; [exact Hm|].
      constructor; [assumption|].
      eapply Forall_impl; [|exact Hy]. intros z Hz. eapply slt_trans; eassumption.
    + constructor; [apply IH; assumption|].
      rewrite Forall_forall in *. intros z Hz.
      apply keys_push_back_In in Hz. destruct Hz as [->|Hz]; auto.
Qed.

Lemma lookup_not_key (k : string) (m : MatchIndex) :
  ~ In k (keys m) -> lookup k m = [].
Proof.
  induction m as [|[y fs] m IH]; simpl; intros Hk; [reflexivity|].
  destruct (String.eqb_spec k y) as [->|Hne]; [exfalso; auto|].
  apply IH. auto.
Qed.

Lemma lookup_push_back (k v x : string) (m : MatchIndex) :
  ascending (keys m) ->
  lookup x (map_push_back k v m)
  = if String.eqb x k then lookup x m ++ [v] else lookup x m.
Proof.
  induction m as [|[y fs] m IH]; simpl; intros Hm.
  - destruct (String.eqb x k); reflexivity.
  - inversion Hm as [|? ? Hm' Hy]; subst. rewrite Forall_forall in Hy.
    cmp_cases k y H; simpl.
    + destruct (String.eqb x y); reflexivity.
    + destruct (String.eqb_spec x k) as [->|Hxk].
      * rewrite (eqb_refl_false (slt_neq H)).
        rewrite lookup_not_key; [reflexivity|].
        intros Hin. apply (@slt_irrefl k).
        eapply slt_trans; [exact H | apply Hy; assumption].
      * reflexivity.
    + rewrite (IH Hm').
      destruct (String.eqb_spec x y) as [->|Hxy]; [|reflexivity].
      rewrite (eqb_refl_false (slt_neq H)). reflexivity.
Qed.

Lemma lookup_In (k : string) (fs : list string) (m : MatchIndex) :
  ascending (keys m) -> In (k, fs) m -> lookup k m = fs.
Proof.
  induction m as [|[y gs] m IH]; simpl; intros Hm Hin; [contradiction|].
  inversion Hm as [|? ? Hm' Hy]; subst. rewrite Forall_forall in Hy.
  destruct Hin as [E|Hin].
  - inversion E; subst. rewrite String.eqb_refl. reflexivity.
  - assert (Hk : In k (keys m)) by (apply (in_map fst _ _ Hin)).
    rewrite (eqb_refl_false (not_eq_sym (slt_neq (Hy _ Hk)))).
    apply IH; assumption.
Qed.

Lemma In_lookup (k : string) (m : MatchIndex) :
  In k (keys m) -> In (k, lookup k m) m.
Proof.
  induction m as [|[y gs] m IH]; simpl; intros Hin; [contradiction|].
  destruct (String.eqb_spec k y) as [->|Hne]; [left; reflexivity|].
  right. apply IH. destruct Hin; [congruence|assumption].
Qed.

Lemma map_push_back_inhabited (k v : string) (m : MatchIndex) :
  inhabited m -> inhabited (map_push_back k v m).
Proof.
  unfold inhabited.
  induction m as [|[y fs] m IH]; simpl; intros Hm.
  - constructor; [discriminate|constructor].
  - inversion Hm as [|? ? Hfs Hm']; subst. simpl in Hfs.
    destruct (String.compare k y); constructor; simpl; auto;
      try discriminate.
    intros E. apply app_eq_nil in E. destruct E; discriminate.
Qed.

Lemma key_iff_lookup (k : string) (m : MatchIndex) :
  inhabited m -> (In k (keys m) <-> lookup k m <> []).
Proof.
  intros Hm. split.
  - intros Hk. apply In_lookup in Hk.
    unfold inhabited in Hm. rewrite Forall_forall in Hm.
    exact (Hm _ Hk).
  - intros Hl. destruct (in_dec string_dec k (keys m)) as [Hin|Hout]; [assumption|].
    exfalso. apply Hl. apply lookup_not_key. assumption.
Qed.

(** ** Substring search *)

Lemma prefix_spec (n h : string) :
  String.prefix n h = true <-> exists post, h = (n ++ post)%string.
Proof.
  revert h. induction n as [|a n IH]; intros h; simpl.
  - destruct h; split; intros _; try reflexivity; eexists; reflexivity.
  - destruct h as [|b h]; simpl.
    + split; [discriminate|]. intros [post E]. discriminate.
    + destruct (ascii_dec a b) as [->|Hne].
      * rewrite IH. split; intros [post E]; exists post; congruence.
      * split; [discriminate|]. intros [post E]. congruence.
Qed.

Lemma find_spec (h n : string) :
  (exists pos, find h n = Some pos) <-> substring_of n h.
Proof.
  unfold find, substring_of.
  induction h as [|b h IH].
  - simpl. destruct n as [|a n].
    + split; intros _; [exists EmptyString, EmptyString|exists 0]; reflexivity.
    + split; [intros [pos E]; discriminate|].
      intros (pre & post & E). destruct pre; discriminate.
  - cbn [String.index].
    destruct (String.prefix n (String b h)) eqn:Hp.
    + split; [intros _|intros _; exists 0; reflexivity].
      apply prefix_spec in Hp. destruct Hp as [post E].
      exists EmptyString, post. exact E.
    + split.
      * intros [pos E].
        destruct (String.index 0 n h) as [q|] eqn:Hq; [|discriminate].
        destruct (proj1 IH (ex_intro _ q eq_refl)) as (pre & post & E').
        exists (String b pre), post. simpl. congruence.
      * intros (pre & post & E). destruct pre as [|c pre].
        -- exfalso. assert (String.prefix n (String b h) = true).
           { apply prefix_spec. exists post. exact E. }
           congruence.
        -- simpl in E. injection E as _ E.
           destruct (proj2 IH (ex_intro _ pre (ex_intro _ post E))) as [q Hq].
           rewrite Hq. eexists; reflexivity.
Qed.

Lemma line_matches_spec (keyword line : string) :
  line_matches keyword line = true
  <-> substring_of (ToLower keyword) (ToLower line).
Proof.
  unfold line_matches. rewrite <- find_spec.
  destruct (find (ToLower line) (ToLower keyword)).
  - split; [intros _; eexists; reflexivity|reflexivity].
  - split; [discriminate|intros [pos E]; discriminate].
Qed.

Lemma line_matches_cs_spec (keyword line : string) :
  line_matches_cs keyword line = true <-> substring_of keyword line.
Proof.
  unfold line_matches_cs. rewrite <- find_spec.
  destruct (find line keyword).
  - split; [intros _; eexists; reflexivity|reflexivity].
  - split; [discriminate|intros [pos E]; discriminate].
Qed.

(** ** Reading lines *)

(** [getlines] is the loop [while (std::getline(stream, line))]. *)
Lemma getlines_getline (s : string) :
  getlines s
  = match getline s with
    | None => []
    | Some (line, rest) => line :: getlines rest
    end.
Proof.
  induction s as [|c s IH]; [reflexivity|].
  cbn [getlines getline take_line].
  destruct (Ascii.eqb c newline); [reflexivity|].
  rewrite IH. destruct s as [|d s]; [reflexivity|].
  cbn [getline]. destruct (take_line (String d s)). reflexivity.
Qed.

Lemma getlines_nonempty (s : string) : s <> EmptyString -> getlines s <> [].
Proof.
  destruct s as [|c s]; [congruence|]. intros _. simpl.
  destruct (Ascii.eqb c newline); [discriminate|].
  destruct (getlines s); discriminate.
Qed.

(** ** The scan loop, for both variants *)

Lemma mem_In (x : string) (l : list string) : mem x l = true <-> In x l.
Proof.
  unfold mem. rewrite existsb_exists. split.
  - intros (y & Hy & E). apply String.eqb_eq in E. subst. assumption.
  - intros H. exists x. split; [assumption|apply String.eqb_refl].
Qed.

Section ScanFacts.

Variable debug : bool.
Variable matches : string -> string -> bool.

Lemma scan_line_In (kws found : list string) (line k : string) :
  In k (scan_line matches kws found line)
  <-> In k found \/ (In k kws /\ matches k line = true).
Proof.
  unfold scan_line. revert found.
  induction kws as [|w kws IH]; intros found; simpl.
  - intuition.
  - rewrite IH. destruct (matches w line) eqn:Hw.
    + rewrite set_insert_In. intuition (subst; auto).
    + intuition (subst; auto; congruence).
Qed.

Lemma scan_line_ascending (kws found : list string) (line : string) :
  ascending found -> ascending (scan_line matches kws found line).
Proof.
  unfold scan_line. revert found.
  induction kws as [|w kws IH]; intros found Hf; simpl; [assumption|].
  apply IH. destruct (matches w line); [apply set_insert_ascending|]; assumption.
Qed.

Lemma scan_lines_In (kws : list string) (lines : list string)
      (found : list string) (k : string) :
  In k (fold_left (scan_line matches kws) lines found)
  <-> In k found
      \/ (In k kws /\ exists line, In line lines /\ matches k line = true).
Proof.
  revert found. induction lines as [|l lines IH]; intros found; simpl.
  - split; [auto|]. intros [H|(_ & l & [] & _)]. assumption.
  - rewrite IH, scan_line_In. split.
    + intros [[H|(Hk & Hm)]|(Hk & l' & Hl' & Hm)]; eauto 7.
    + intros [H|(Hk & l' & [->|Hl'] & Hm)]; eauto 7.
Qed.

Lemma scan_lines_ascending (kws lines found : list string) :
  ascending found -> ascending (fold_left (scan_line matches kws) lines found).
Proof.
  revert found. induction lines as [|l lines IH]; intros found Hf; simpl;
    [assumption|].
  apply IH, scan_line_ascending, Hf.
Qed.

Lemma keywordsFoundInFile_In (kws : list string) (content k : string) :
  In k (keywordsFoundInFile matches kws content)
  <-> In k kws
      /\ exists line, In line (getlines content) /\ matches k line = true.
Proof.
  unfold keywordsFoundInFile. rewrite scan_lines_In. simpl. tauto.
Qed.

Lemma keywordsFoundInFile_ascending (kws : list string) (content : string) :
  ascending (keywordsFoundInFile matches kws content).
Proof. apply scan_lines_ascending. constructor. Qed.

(** The set found in a file does not depend on the order of the keywords. *)
Lemma keywordsFoundInFile_Permutation (kws kws' : list string) (content : string) :
  Permutation kws kws' ->
  keywordsFoundInFile matches kws content
  = keywordsFoundInFile matches kws' content.
Proof.
  intros HP. apply ascending_ext; try apply keywordsFoundInFile_ascending.
  intros k. rewrite !keywordsFoundInFile_In.
  split; intros [Hk Hl]; split; try assumption.
  - eapply Permutation_in; eassumption.
  - eapply Permutation_in; [apply Permutation_sym|]; eassumption.
Qed.

Lemma listed_spec (kws : list string) (k : string) (entry : dir_entry) :
  listed matches kws k entry = true
  <-> is_html_candidate entry = true /\ In k kws /\ file_matches matches k entry.
Proof.
  unfold listed, file_matches. rewrite andb_true_iff.
  destruct (ifstream entry) as [content|].
  - rewrite mem_In, keywordsFoundInFile_In. split.
    + intros (Hc & Hk & line & Hl & Hm). eauto 8.
    + intros (Hc & Hk & c & line & E & Hl & Hm). injection E as <-. eauto 8.
  - split; [intros [_ H]; discriminate|].
    intros (_ & _ & c & line & E & _). discriminate.
Qed.

(** *** Recording one file *)

Lemma record_fold_index (p : string) (found : list string) (st : ScanState) :
  foundFilesByKeyword (fold_left (record_found p) found st)
  = fold_left (fun m k => map_push_back k p m) found (foundFilesByKeyword st).
Proof.
  revert st. induction found as [|k found IH]; intros st; simpl; [reflexivity|].
  rewrite IH. reflexivity.
Qed.

Lemma record_fold_err (p : string) (found : list string) (st : ScanState) :
  scan_err (fold_left (record_found p) found st) = scan_err st.
Proof.
  revert st. induction found as [|k found IH]; intros st; simpl; [reflexivity|].
  rewrite IH. reflexivity.
Qed.

Lemma record_fold_out (p : string) (found : list string) (st : ScanState) :
  scan_out (fold_left (record_found p) found st)
  = scan_out st
    ++ map (fun k => ("Found " ++ quoted k ++ " in: " ++ p)%string) found.
Proof.
  revert st. induction found as [|k found IH]; intros st; simpl.
  - rewrite app_nil_r. reflexivity.
  - rewrite IH. simpl. rewrite <- app_assoc. reflexivity.
Qed.

Lemma push_fold_ascending (p : string) (found : list string) (m : MatchIndex) :
  ascending (keys m) ->
  ascending (keys (fold_left (fun m k => map_push_back k p m) found m)).
Proof.
  revert m. induction found as [|k found IH]; intros m Hm; simpl; [assumption|].
  apply IH, map_push_back_ascending, Hm.
Qed.

Lemma push_fold_inhabited (p : string) (found : list string) (m : MatchIndex) :
  inhabited m ->
  inhabited (fold_left (fun m k => map_push_back k p m) found m).
Proof.
  revert m. induction found as [|k found IH]; intros m Hm; simpl; [assumption|].
  apply IH, map_push_back_inhabited, Hm.
Qed.

Lemma push_fold_lookup (p : string) (found : list string) (m : MatchIndex)
      (x : string) :
  NoDup found -> ascending (keys m) ->
  lookup x (fold_left (fun m k => map_push_back k p m) found m)
  = lookup x m ++ (if mem x found then [p] else []).
Proof.
  revert m. induction found as [|k found IH]; intros m Hnd Hm; simpl.
  - rewrite app_nil_r. reflexivity.
  - inversion Hnd as [|? ? Hk Hnd']; subst.
    rewrite IH by (auto using map_push_back_ascending).
    rewrite lookup_push_back by assumption.
    destruct (String.eqb_spec x k) as [->|Hne]; simpl; [|reflexivity].
    assert (E : mem k found = false).
    { destruct (mem k found) eqn:E; [|reflexivity].
      apply mem_In in E. contradiction. }
    rewrite E, app_nil_r. reflexivity.
Qed.

(** *** The loop over the directory *)

Lemma scan_entry_ok (kws : list string) (st : ScanState) (entry : dir_entry) :
  index_ok st -> index_ok (scan_entry debug matches kws st entry).
Proof.
  unfold scan_entry, index_ok. intros [Ha Hi].
  destruct (is_html_candidate entry); [|auto].
  assert (H1 : foundFilesByKeyword
                 (if debug
                  then say ("[DEBUG] Scanning file: " ++ path entry) st
                  else st) = foundFilesByKeyword st)
    by (destruct debug; reflexivity).
  destruct (ifstream entry) as [content|].
  - rewrite record_fold_index, H1.
    split; [apply push_fold_ascending|apply push_fold_inhabited]; assumption.
  - unfold warn. cbn [foundFilesByKeyword]. rewrite H1. auto.
Qed.

Lemma scan_entry_lookup (kws : list string) (st : ScanState)
      (entry : dir_entry) (x : string) :
  index_ok st ->
  lookup x (foundFilesByKeyword (scan_entry debug matches kws st entry))
  = lookup x (foundFilesByKeyword st)
    ++ (if listed matches kws x entry then [path entry] else []).
Proof.
  unfold scan_entry, listed, index_ok. intros [Ha Hi].
  destruct (is_html_candidate entry); cbn [andb];
    [|rewrite app_nil_r; reflexivity].
  assert (H1 : foundFilesByKeyword
                 (if debug
                  then say ("[DEBUG] Scanning file: " ++ path entry) st
                  else st) = foundFilesByKeyword st)
    by (destruct debug; reflexivity).
  destruct (ifstream entry) as [content|].
  - rewrite record_fold_index, H1.
    apply push_fold_lookup; [|assumption].
    apply ascending_NoDup, keywordsFoundInFile_ascending.
  - unfold warn. cbn [foundFilesByKeyword]. rewrite H1, app_nil_r.
    reflexivity.
Qed.

Lemma scan_fold_ok (kws : list string) (entries : list dir_entry)
      (st : ScanState) :
  index_ok st -> index_ok (fold_left (scan_entry debug matches kws) entries st).
Proof.
  revert st. induction entries as [|e entries IH]; intros st Hst; simpl;
    [assumption|].
  apply IH, scan_entry_ok, Hst.
Qed.

Lemma scan_fold_lookup (kws : list string) (entries : list dir_entry)
      (st : ScanState) (x : string) :
  index_ok st ->
  lookup x (foundFilesByKeyword
              (fold_left (scan_entry debug matches kws) entries st))
  = lookup x (foundFilesByKeyword st)
    ++ map path (filter (listed matches kws x) entries).
Proof.
  revert st. induction entries as [|e entries IH]; intros st Hst; simpl.
  - rewrite app_nil_r. reflexivity.
  - rewrite IH by (apply scan_entry_ok, Hst).
    rewrite scan_entry_lookup by assumption.
    rewrite <- app_assoc. destruct (listed matches kws x e); reflexivity.
Qed.

Lemma scan_init_ok : index_ok scan_init.
Proof. split; constructor. Qed.

Lemma scan_directory_ok (kws : list string) (entries : list dir_entry) :
  index_ok (scan_directory debug matches kws entries).
Proof. apply scan_fold_ok, scan_init_ok. Qed.

(** The vector under [x] lists, in traversal order, the paths of the
    entries that are candidates, could be opened, and have a matching line. *)
Lemma scan_directory_lookup (kws : list string) (entries : list dir_entry)
      (x : string) :
  lookup x (foundFilesByKeyword (scan_directory debug matches kws entries))
  = map path (filter (listed matches kws x) entries).
Proof.
  unfold scan_directory. rewrite scan_fold_lookup by apply scan_init_ok.
  reflexivity.
Qed.

Lemma scan_directory_keys (kws : list string) (entries : list dir_entry)
      (x : string) :
  In x (keys (foundFilesByKeyword (scan_directory debug matches kws entries)))
  <-> exists e, In e entries /\ listed matches kws x e = true.
Proof.
  rewrite key_iff_lookup by apply scan_directory_ok.
  rewrite scan_directory_lookup. split.
  - intros Hne. destruct (filter (listed matches kws x) entries) as [|e l] eqn:E;
      [contradiction Hne; reflexivity|].
    assert (He : In e (filter (listed matches kws x) entries)) by (rewrite E; left; auto).
    apply filter_In in He. exists e. exact He.
  - intros (e & He & Hl) E.
    assert (Hin : In e (filter (listed matches kws x) entries))
      by (apply filter_In; auto).
    apply (in_map path) in Hin. rewrite E in Hin. contradiction.
Qed.

Lemma scan_directory_Permutation (kws kws' : list string)
      (entries : list dir_entry) :
  Permutation kws kws' ->
  scan_directory debug matches kws entries
  = scan_directory debug matches kws' entries.
Proof.
  intros HP. unfold scan_directory. generalize scan_init.
  induction entries as [|e entries IH]; intros st; simpl; [reflexivity|].
  rewrite IH. f_equal. unfold scan_entry.
  destruct (is_html_candidate e); [|reflexivity].
  destruct (ifstream e) as [content|]; [|reflexivity].
  rewrite (keywordsFoundInFile_Permutation content HP). reflexivity.
Qed.

End ScanFacts.

(** ** What [main] does after a successful parse *)


Lemma NoDup_map_inj_In (A B : Type) (g : A -> B) (l : list A) (a b : A) :
  NoDup (map g l) -> In a l -> In b l -> g a = g b -> a = b.
Proof.
  induction l as [|x l IH]; simpl; intros Hnd Ha Hb E; [contradiction|].
  inversion Hnd as [|? ? Hx Hl]; subst.
  destruct Ha as [->|Ha], Hb as [->|Hb]; auto.
  - exfalso. apply Hx. rewrite E. apply in_map. assumption.
  - exfalso. apply Hx. rewrite <- E. apply in_map. assumption.
Qed.

Lemma distinct_NoDup (l : list string) : distinct l = true -> NoDup l.
Proof.
  induction l as [|x l IH]; simpl; intros H; [constructor|].
  apply andb_true_iff in H. destruct H as [Hx Hl].
  constructor; [|auto].
  intros Hin. apply mem_In in Hin. rewrite Hin in Hx. discriminate.
Qed.

(** A run that creates the output file wrote the report of the index that
    the scan built from the parsed keywords. *)
Lemma main_output_file (argValues : list string) (env : Env)
      (name : string) (lines : list string) :
  output_file (main argValues env) = Some (name, lines) ->
  let cfg := parse_args argValues in
  name = outputFileName cfg
  /\ lines
     = report_lines
         (absolute env (scanDirectory cfg))
         (scan (keywords cfg)
               (fst (recursive_directory_iterator env (scanDirectory cfg)))).
Proof.
  unfold main, main_variant, run, scan. intros H. cbv zeta.
  destruct (length argValues <? 3)%nat; [discriminate|].
  set (cfg := parse_args argValues) in *.
  destruct (String.eqb (scanDirectory cfg) EmptyString
            || negb (is_directory env (scanDirectory cfg))); [discriminate|].
  destruct (keywords cfg) as [|k kws] eqn:Ek; [discriminate|].
  destruct (outputFlagFound cfg); [discriminate|].
  destruct (recursive_directory_iterator env (scanDirectory cfg))
    as [entries ending].
  destruct (ofstream_is_open env (outputFileName cfg)); [|discriminate].
  cbn [output_file fst] in *. injection H as <- <-. split; reflexivity.
Qed.

(** * The claims *)



(** C2. The report written to the output path starts with the record
    [Scan results for directory: <absolute scan root>]. For an empty index a
    blank record and the "No files were found" record follow. Otherwise each
    keyword of the index, in ascending lexicographic order, contributes a
    blank record, a record of 50 [=], the record
    [Files containing keyword: "<keyword>"], 50 [=] again, and then the
    matching paths, one per record, in traversal order. *)
Theorem C2_report_format (argValues : list string) (env : Env)
        (name : string) (lines : list string) :
  output_file (main argValues env) = Some (name, lines) ->
  let cfg := parse_args argValues in
  let entries := fst (recursive_directory_iterator env (scanDirectory cfg)) in
  let index := scan (keywords cfg) entries in
  let rule := string_of_list_ascii (repeat "="%char 50) in
  name = outputFileName cfg
  /\ ascending (keys index)
  /\ (forall k files,
         In (k, files) index ->
         files
         = map path (filter (listed line_matches (keywords cfg) k) entries))
  /\ lines
     = ("Scan results for directory: " ++ absolute env (scanDirectory cfg))%string
       :: match index with
          | [] => [ ""; "No files were found containing the specified keywords." ]
          | _ =>
              flat_map
                (fun kv =>
                   [ "";
                     rule;
                     ("Files containing keyword: "
                        ++ String dquote (fst kv) ++ String dquote "")%string;
                     rule ] ++ snd kv)
                index
          end.
Proof.
  intros H cfg entries index rule.
  destruct (main_output_file _ _ H) as [Hname Hlines].
  fold cfg in Hname, Hlines. fold entries in Hlines. fold index in Hlines.
  assert (Hok : index_ok (scan_directory true line_matches (keywords cfg) entries))
    by apply scan_directory_ok.
  destruct Hok as [Hasc _].
  split; [assumption|]. split; [exact Hasc|]. split.
  - intros k files Hin.
    rewrite <- (@lookup_In k files index Hasc Hin). apply scan_directory_lookup.
  - rewrite Hlines. unfold report_lines. f_equal.
    destruct index as [|kv index']; [reflexivity|].
    apply flat_map_ext. intros [k files]. reflexivity.
Qed.

Lemma C2_report_format_witness :
  ascending (keys (scan ["gallery"; "FORM"] site))
  /\ ["Scan results for directory: /home/user/./site";
      "";
      "==================================================";
      String "F" (String "i" ("les containing keyword: "
        ++ String dquote ("FORM" ++ String dquote "")));
      "==================================================";
      "./site/a.html";
      "";
      "==================================================";
      String "F" (String "i" ("les containing keyword: "
        ++ String dquote ("gallery" ++ String dquote "")));
      "==================================================";
      "./site/a.html";
      "./site/sub/b.htm"]%string
     = "Scan results for directory: /home/user/./site"
       :: flat_map
            (fun kv =>
               [ "";
                 string_of_list_ascii (repeat "="%char 50);
                 ("Files containing keyword: "
                    ++ String dquote (fst kv) ++ String dquote "")%string;
                 string_of_list_ascii (repeat "="%char 50) ] ++ snd kv)
            (scan ["gallery"; "FORM"] site).
Proof.
  pose proof (@C2_report_format
                ["app"; "./site"; "gallery"; "/o"; "r.txt"; "FORM"] site_env
                "r.txt" _ eq_refl) as H.
  split.
  - exact (proj1 (proj2 H)).
  - exact (proj2 (proj2 (proj2 H))).
Defined.



(** The keyword [form] stands on two lines of [a.html] and twice on the
    command line; the file is listed once. *)
Example scan_site_form :
  scan ["form"; "gallery"; "form"] site
  = [ ("form", ["./site/a.html"]);
      ("gallery", ["./site/a.html"; "./site/sub/b.htm"]) ].
Proof. reflexivity. Qed.

(** ** Argument parsing *)

Lemma is_output_flag_spec (arg : string) :
  is_output_flag arg = true <-> arg = "/o" \/ arg = "/O".
Proof.
  unfold is_output_flag. rewrite orb_true_iff, !String.eqb_eq. reflexivity.
Qed.

Lemma parse_loop_app (i : nat) (a b : list string) (st : ParseState) :
  parse_loop i (a ++ b) st = parse_loop (length a + i) b (parse_loop i a st).
Proof.
  revert i st. induction a as [|x a IH]; intros i st; simpl; [reflexivity|].
  rewrite IH. f_equal. lia.
Qed.

(** Past index 1 and outside an [/o] pair, tokens that are not the flag are
    appended to the keywords and change nothing else. *)
Lemma parse_loop_plain (i : nat) (l : list string) (st : ParseState) :
  2 <= i -> outputFlagFound st = false ->
  Forall (fun a => is_output_flag a = false) l ->
  parse_loop i l st
  = {| scanDirectory := scanDirectory st;
       outputFileName := outputFileName st;
       keywords := keywords st ++ l;
       outputFlagFound := false |}.
Proof.
  revert i st. induction l as [|a l IH]; intros i st Hi Hf Hl; simpl.
  - rewrite app_nil_r. destruct st; simpl in *; subst; reflexivity.
  - inversion Hl as [|? ? Ha Hl']; subst.
    rewrite IH; try assumption; try lia.
    + unfold parse_step. destruct (Nat.eqb_spec i 1) as [->|_]; [lia|].
      rewrite Hf, Ha. simpl. rewrite <- app_assoc. reflexivity.
    + unfold parse_step. destruct (Nat.eqb_spec i 1) as [->|_]; [lia|].
      rewrite Hf, Ha. reflexivity.
Qed.

(** Reading a recognised flag and the token after it. *)
Lemma parse_loop_pair (i : nat) (flag name : string) (rest : list string)
      (st : ParseState) :
  2 <= i -> outputFlagFound st = false -> is_output_flag flag = true ->
  parse_loop i (flag :: name :: rest) st
  = parse_loop (S (S i)) rest
      {| scanDirectory := scanDirectory st;
         outputFileName := name;
         keywords := keywords st;
         outputFlagFound := false |}.
Proof.
  intros Hi Hf Hflag. simpl. f_equal. unfold parse_step.
  destruct (Nat.eqb_spec i 1) as [->|_]; [lia|].
  destruct (Nat.eqb_spec (S i) 1) as [E|_]; [lia|].
  rewrite Hf, Hflag. reflexivity.
Qed.

Lemma parse_step_scanDirectory (i : nat) (arg : string) (st : ParseState) :
  2 <= i -> scanDirectory (parse_step i arg st) = scanDirectory st.
Proof.
  intros Hi. unfold parse_step.
  destruct (Nat.eqb_spec i 1) as [->|_]; [lia|].
  destruct (outputFlagFound st); [reflexivity|].
  destruct (is_output_flag arg); reflexivity.
Qed.

Lemma parse_loop_scanDirectory (i : nat) (l : list string) (st : ParseState) :
  2 <= i -> scanDirectory (parse_loop i l st) = scanDirectory st.
Proof.
  revert i st. induction l as [|a l IH]; intros i st Hi; simpl; [reflexivity|].
  rewrite IH by lia. apply parse_step_scanDirectory. assumption.
Qed.

Lemma parse_dangling_alone (prog dir flag : string) :
  is_output_flag flag = true ->
  parse_args [prog; dir; flag]
  = {| scanDirectory := dir;
       outputFileName := "output.txt";
       keywords := [];
       outputFlagFound := true |}.
Proof.
  intros Hflag. unfold parse_args. cbn [tl parse_loop].
  unfold parse_step. cbn [Nat.eqb parse_init outputFlagFound].
  rewrite Hflag. reflexivity.
Qed.

Lemma parse_dangling_after_keyword (prog dir keyword flag : string) :
  is_output_flag keyword = false -> is_output_flag flag = true ->
  parse_args [prog; dir; keyword; flag]
  = {| scanDirectory := dir;
       outputFileName := "output.txt";
       keywords := [keyword];
       outputFlagFound := true |}.
Proof.
  intros Hk Hflag. unfold parse_args. cbn [tl parse_loop].
  unfold parse_step. cbn [Nat.eqb parse_init outputFlagFound].
  rewrite Hk. cbn [outputFlagFound]. rewrite Hflag. reflexivity.
Qed.

(** C4, as the specification states it, fails: for [app ./site /o] with
    [./site] a directory, the [/o flag specified without a filename] record
    is not written. *)
Lemma C4_dangling_flag_alone_counterexample :
  ~ (exit_code (main ["app"; "./site"; "/o"] site_env) = 1%Z
     /\ In "Error: /o flag specified without a filename."
           (cerr (main ["app"; "./site"; "/o"] site_env))).
Proof.
  intros [_ H]. vm_compute in H.
  repeat (destruct H as [H|H]; [discriminate H|]). exact H.
Qed.

(** C4, amended. Invoked as [app ./site /o], with [./site] an existing
    directory, the program exits with code 1 and reports that no keywords
    were provided: that test comes before the test for a dangling [/o]. The
    dangling-flag error is what a run on an existing directory reports when
    at least one keyword was collected and the argument loop ends with an
    [/o] still waiting for its file name. *)
Theorem C4_dangling_flag_alone (env : Env) (prog dir flag : string) :
  dir <> "" -> is_directory env dir = true ->
  flag = "/o" \/ flag = "/O" ->
  (let r := main [prog; dir; flag] env in
   exit_code r = 1%Z
   /\ cerr r = "Error: No keywords were provided." :: PrintUsage prog
   /\ ~ In "Error: /o flag specified without a filename." (cerr r)
   /\ output_file r = None)
  /\ (forall rest,
         keywords (parse_args (prog :: dir :: rest)) <> [] ->
         outputFlagFound (parse_args (prog :: dir :: rest)) = true ->
         let r := main (prog :: dir :: rest) env in
         exit_code r = 1%Z
         /\ cerr r
            = "Error: /o flag specified without a filename." :: PrintUsage prog
         /\ output_file r = None).
Proof.
  intros Hdir Hisdir Hflag.
  apply is_output_flag_spec in Hflag.
  apply String.eqb_neq in Hdir.
  split.
  - cbv zeta. unfold main, main_variant.
    rewrite (parse_dangling_alone prog dir flag Hflag).
    unfold run. cbn [length Nat.ltb Nat.leb hd scanDirectory keywords].
    rewrite Hdir, Hisdir. cbn [orb negb fatal exit_code cerr output_file].
    repeat split.
    simpl. intros H.
    repeat (destruct H as [H|H]; [discriminate H|]). exact H.
  - intros rest Hk Hpending. cbv zeta.
    assert (Hsd : scanDirectory (parse_args (prog :: dir :: rest)) = dir).
    { unfold parse_args. cbn [tl parse_loop].
      rewrite parse_loop_scanDirectory by lia. reflexivity. }
    destruct rest as [|a rest']; [exfalso; apply Hk; reflexivity|].
    unfold main, main_variant.
    change (length (prog :: dir :: a :: rest') <? 3)%nat with false.
    cbv iota. unfold run. cbn [hd]. rewrite Hsd, Hdir, Hisdir.
    cbn [orb negb].
    destruct (keywords (parse_args (prog :: dir :: a :: rest')))
      as [|k kws]; [congruence|].
    rewrite Hpending. cbn [fatal exit_code cerr output_file].
    repeat split.
Qed.

Lemma C4_dangling_flag_alone_witness :
  cerr (main ["app"; "./site"; "/o"] site_env)
  = "Error: No keywords were provided." :: PrintUsage "app"
  /\ cerr (main ["app"; "./site"; "form"; "/o"] site_env)
     = "Error: /o flag specified without a filename." :: PrintUsage "app".
Proof.
  pose proof (@C4_dangling_flag_alone site_env "app" "./site" "/o") as H.
  assert (Hdir : "./site" <> "") by discriminate.
  destruct (H Hdir eq_refl (or_introl eq_refl)) as [H1 H2].
  assert (Hk : keywords (parse_args ["app"; "./site"; "form"; "/o"]) <> [])
    by discriminate.
  split.
  - exact (proj1 (proj2 H1)).
  - exact (proj1 (proj2 (H2 ["form"; "/o"] Hk eq_refl))).
Defined.

(** A final [/o] that is itself the file name of the [/o] before it leaves
    nothing dangling: the run succeeds and writes the report to [/o]. *)
Example final_flag_as_file_name :
  exit_code (main ["app"; "./site"; "form"; "/o"; "/o"] site_env) = 0%Z
  /\ option_map fst
       (output_file (main ["app"; "./site"; "form"; "/o"; "/o"] site_env))
     = Some "/o".
Proof. split; reflexivity. Qed.

(** C5. Whenever the parser, at position 2 or later, sees a token [/o] or
    [/O], the token right after it becomes the output path and is not added
    to the keywords; when no further [/o] follows, that is, for the last such
    pair, this is the output path of the run; and a command line without any
    [/o] token leaves the output path at the literal [output.txt]. *)
Theorem C5_output_flag (prog dir : string) :
  (forall pre flag name post,
      outputFlagFound (parse_args (prog :: dir :: pre)) = false ->
      flag = "/o" \/ flag = "/O" ->
      let before := parse_args (prog :: dir :: pre) in
      parse_args (prog :: dir :: pre ++ flag :: name :: post)
      = parse_loop (4 + length pre) post
          {| scanDirectory := scanDirectory before;
             outputFileName := name;
             keywords := keywords before;
             outputFlagFound := false |})
  /\ (forall pre flag name post,
         outputFlagFound (parse_args (prog :: dir :: pre)) = false ->
         flag = "/o" \/ flag = "/O" ->
         Forall (fun a => is_output_flag a = false) post ->
         let before := parse_args (prog :: dir :: pre) in
         let cfg := parse_args (prog :: dir :: pre ++ flag :: name :: post) in
         outputFileName cfg = name
         /\ keywords cfg = keywords before ++ post
         /\ outputFlagFound cfg = false)
  /\ (forall rest,
         Forall (fun a => is_output_flag a = false) rest ->
         let cfg := parse_args (prog :: dir :: rest) in
         outputFileName cfg = "output.txt" /\ keywords cfg = rest).
Proof.
  assert (Hpair : forall pre flag name post,
             outputFlagFound (parse_args (prog :: dir :: pre)) = false ->
             flag = "/o" \/ flag = "/O" ->
             parse_args (prog :: dir :: pre ++ flag :: name :: post)
             = parse_loop (4 + length pre) post
                 {| scanDirectory := scanDirectory (parse_args (prog :: dir :: pre));
                    outputFileName := name;
                    keywords := keywords (parse_args (prog :: dir :: pre));
                    outputFlagFound := false |}).
  { intros pre flag name post Hf Hflag.
    apply is_output_flag_spec in Hflag.
    unfold parse_args in *. cbn [tl parse_loop] in *.
    rewrite parse_loop_app.
    rewrite parse_loop_pair; [|lia|assumption|assumption].
    f_equal. lia. }
  split; [exact Hpair|]. split.
  - intros pre flag name post Hf Hflag Hpost before cfg.
    subst cfg. rewrite (Hpair pre flag name post Hf Hflag).
    rewrite parse_loop_plain; [|lia|reflexivity|assumption].
    repeat split.
  - intros rest Hrest cfg. subst cfg.
    unfold parse_args. cbn [tl parse_loop].
    rewrite parse_loop_plain; [|lia|reflexivity|assumption].
    split; reflexivity.
Qed.

Lemma C5_output_flag_witness :
  parse_args ["app"; "./site"; "gallery"; "/o"; "first.txt";
              "/O"; "second.txt"; "form"]
  = parse_loop 5 ["/O"; "second.txt"; "form"]
      {| scanDirectory := "./site";
         outputFileName := "first.txt";
         keywords := ["gallery"];
         outputFlagFound := false |}
  /\ (let cfg := parse_args ["app"; "./site"; "gallery"; "/o"; "first.txt";
                             "/O"; "second.txt"; "form"] in
      outputFileName cfg = "second.txt"
      /\ keywords cfg
         = keywords (parse_args ["app"; "./site"; "gallery"; "/o"; "first.txt"])
           ++ ["form"]
      /\ outputFlagFound cfg = false)
  /\ (let cfg := parse_args ["app"; "./site"; "gallery"; "form"] in
      outputFileName cfg = "output.txt" /\ keywords cfg = ["gallery"; "form"]).
Proof.
  destruct (C5_output_flag "app" "./site") as (Hpair & Hlast & Hnone).
  split; [|split].
  - apply (Hpair ["gallery"] "/o" "first.txt" ["/O"; "second.txt"; "form"]).
    + reflexivity.
    + left. reflexivity.
  - apply (Hlast ["gallery"; "/o"; "first.txt"] "/O" "second.txt" ["form"]).
    + reflexivity.
    + right. reflexivity.
    + repeat constructor.
  - apply (Hnone ["gallery"; "form"]). repeat constructor.
Defined.

(** The token after a recognised flag is the file name whatever it is, even
    [/o] itself; the token after that is read afresh. *)
Example parse_flag_as_name :
  parse_args ["app"; "./site"; "/o"; "/o"; "x"]
  = {| scanDirectory := "./site";
       outputFileName := "/o";
       keywords := ["x"];
       outputFlagFound := false |}.
Proof. reflexivity. Qed.

(** ** Which entries are scanned *)

Lemma is_html_candidate_spec (entry : dir_entry) :
  is_html_candidate entry = true
  <-> is_regular_file entry = true
      /\ (extension (path entry) = ".html" \/ extension (path entry) = ".htm").
Proof.
  unfold is_html_candidate.
  rewrite andb_true_iff, orb_true_iff, !String.eqb_eq. reflexivity.
Qed.

Lemma scan_entry_out (matches : string -> string -> bool) (kws : list string)
      (st : ScanState) (entry : dir_entry) :
  scan_out (scan_entry true matches kws st entry)
  = scan_out st ++ entry_out matches kws entry.
Proof.
  unfold scan_entry, entry_out.
  destruct (is_html_candidate entry); [|rewrite app_nil_r; reflexivity].
  destruct (ifstream entry) as [content|].
  - rewrite record_fold_out. unfold say. cbn [scan_out].
    rewrite <- app_assoc. reflexivity.
  - reflexivity.
Qed.

Lemma scan_fold_out (matches : string -> string -> bool) (kws : list string)
      (entries : list dir_entry) (st : ScanState) :
  scan_out (fold_left (scan_entry true matches kws) entries st)
  = scan_out st ++ flat_map (entry_out matches kws) entries.
Proof.
  revert st. induction entries as [|e entries IH]; intros st; simpl.
  - rewrite app_nil_r. reflexivity.
  - rewrite IH, scan_entry_out, <- app_assoc. reflexivity.
Qed.

Lemma scan_directory_filter (debug : bool) (matches : string -> string -> bool)
      (kws : list string) (entries : list dir_entry) :
  scan_directory debug matches kws entries
  = scan_directory debug matches kws (filter is_html_candidate entries).
Proof.
  unfold scan_directory. generalize scan_init.
  induction entries as [|e entries IH]; intros st; simpl; [reflexivity|].
  destruct (is_html_candidate e) eqn:He; simpl.
  - apply IH.
  - rewrite <- IH. f_equal. unfold scan_entry. rewrite He. reflexivity.
Qed.

Lemma filename_after_slash (dir name : string) :
  existsb (Ascii.eqb slash) (list_ascii_of_string name) = false ->
  filename (dir ++ String slash name) = name.
Proof.
  intros Hname. induction dir as [|c dir IH]; cbn [String.append filename].
  - rewrite Hname. reflexivity.
  - assert (E : existsb (Ascii.eqb slash)
                        (list_ascii_of_string (dir ++ String slash name)) = true).
    { clear IH. induction dir as [|d dir IHd]; simpl.
      - reflexivity.
      - rewrite IHd. apply orb_true_r. }
    rewrite E. exact IH.
Qed.

(** C6. A directory entry is scanned exactly when it is a regular file whose
    extension is, character for character, [.html] or [.htm]: those entries,
    and only those, are announced as scanned, and the scan of a directory is
    the scan of its entries of that kind. In particular a regular file named
    [INDEX.HTML], in whatever directory, is skipped. *)
Theorem C6_scanned_iff_html_extension :
  (forall (kws : list string) (entries : list dir_entry) (p : string),
      In ("[DEBUG] Scanning file: " ++ p)%string
         (scan_out (scan_directory true line_matches kws entries))
      <-> exists e,
            In e entries /\ path e = p
            /\ is_regular_file e = true
            /\ (extension p = ".html" \/ extension p = ".htm"))
  /\ (forall (kws : list string) (entries : list dir_entry),
         scan_directory true line_matches kws entries
         = scan_directory true line_matches kws
             (filter (fun e =>
                        is_regular_file e
                        && (String.eqb (extension (path e)) ".html"
                            || String.eqb (extension (path e)) ".htm"))
                     entries))
  /\ (forall (kws : list string) (st : ScanState) (e : dir_entry) (dir : string),
         path e = "INDEX.HTML" \/ path e = (dir ++ "/INDEX.HTML")%string ->
         scan_entry true line_matches kws st e = st).
Proof.
  split; [|split].
  - intros kws entries p. unfold scan_directory.
    rewrite scan_fold_out. cbn [scan_init scan_out app].
    rewrite in_flat_map. split.
    + intros (e & He & Hin). exists e. unfold entry_out in Hin.
      destruct (is_html_candidate e) eqn:Hc; [|contradiction].
      apply is_html_candidate_spec in Hc.
      destruct Hin as [E|Hin].
      * simpl in E.
        assert (path e = p) as <- by congruence. tauto.
      * exfalso. destruct (ifstream e) as [content|]; [|contradiction].
        apply in_map_iff in Hin. destruct Hin as (k & E & _).
        simpl in E. discriminate E.
    + intros (e & He & <- & Hreg & Hext). exists e. split; [assumption|].
      unfold entry_out.
      rewrite (proj2 (is_html_candidate_spec e) (conj Hreg Hext)).
      left. reflexivity.
  - intros kws entries. apply scan_directory_filter.
  - intros kws st e dir Hp. unfold scan_entry.
    assert (Hc : is_html_candidate e = false).
    { unfold is_html_candidate, extension. destruct Hp as [-> | ->].
      - apply andb_false_r.
      - change (dir ++ "/INDEX.HTML")%string
          with (dir ++ String slash "INDEX.HTML")%string.
        rewrite filename_after_slash by reflexivity.
        apply andb_false_r. }
    rewrite Hc. reflexivity.
Qed.

Lemma C6_scanned_iff_html_extension_witness :
  scan_entry true line_matches ["form"] scan_init
             (nth 3 site (Build_dir_entry "" false None))
  = scan_init.
Proof.
  apply (proj2 (proj2 C6_scanned_iff_html_extension)
               ["form"] scan_init
               (nth 3 site (Build_dir_entry "" false None)) "./site").
  right. reflexivity.
Defined.

(** The entries of [site] that are announced as scanned. *)
Example site_scanned :
  filter (fun l => String.prefix "[DEBUG] Scanning" l)
         (scan_out (scan_directory true line_matches ["form"] site))
  = [ "[DEBUG] Scanning file: ./site/a.html";
      "[DEBUG] Scanning file: ./site/sub/b.htm";
      "[DEBUG] Scanning file: ./site/locked.html";
      "[DEBUG] Scanning file: ./site/empty.html" ].
Proof. reflexivity. Qed.

(** ** The output file cannot be opened *)

(** C7. When, after the scan, the output file cannot be opened for writing,
    the program writes a diagnostic naming the file as the last record of the
    error stream and exits with code 1; the scan has run (its progress
    records are on the standard output) but no report file is created. *)
Theorem C7_output_unwritable (argValues : list string) (env : Env) :
  3 <= length argValues ->
  let cfg := parse_args argValues in
  scanDirectory cfg <> "" ->
  is_directory env (scanDirectory cfg) = true ->
  keywords cfg <> [] ->
  outputFlagFound cfg = false ->
  ofstream_is_open env (outputFileName cfg) = false ->
  let r := main argValues env in
  let traversal := recursive_directory_iterator env (scanDirectory cfg) in
  let scanned :=
    scan_directory true line_matches (keywords cfg) (fst traversal) in
  exit_code r = 1%Z
  /\ output_file r = None
  /\ cerr r
     = scan_err scanned ++ catch_line (snd traversal)
       ++ [("Error: Could not open output file for writing: "
              ++ outputFileName cfg)%string]
  /\ cout r = debug_banner cfg ++ banner env cfg ++ scan_out scanned.
Proof.
  intros Hlen cfg Hdir Hisdir Hkws Hflag Hopen r traversal scanned.
  subst r. unfold main, main_variant.
  destruct (Nat.ltb_spec (length argValues) 3) as [Hlt|_]; [lia|].
  unfold run. fold cfg.
  apply String.eqb_neq in Hdir. rewrite Hdir, Hisdir. cbn [orb negb].
  destruct (keywords cfg) as [|k kws] eqn:Ek; [congruence|].
  rewrite Hflag.
  subst scanned traversal.
  destruct (recursive_directory_iterator env (scanDirectory cfg))
    as [entries ending].
  rewrite Hopen. cbn [fatal exit_code output_file cerr cout fst snd].
  rewrite <- app_assoc. repeat split.
Qed.

Lemma C7_output_unwritable_witness :
  let r := main ["app"; "./site"; "/o"; "/proc/denied"; "form"] site_env in
  exit_code r = 1%Z
  /\ output_file r = None
  /\ cerr r
     = ["Warning: Could not open file: ./site/locked.html";
        "Error: Could not open output file for writing: /proc/denied"]
  /\ In (String "F" ("ound " ++ quoted "form" ++ " in: ./site/a.html"))%string
        (cout r).
Proof.
  pose proof (@C7_output_unwritable
                ["app"; "./site"; "/o"; "/proc/denied"; "form"] site_env) as H.
  assert (H3 : 3 <= 5) by lia.
  assert (Hdir : "./site" <> "") by discriminate.
  assert (Hkw : ["form"] <> []) by discriminate.
  destruct (H H3 Hdir eq_refl Hkw eq_refl eq_refl) as (H1 & H2 & H4 & H5).
  split; [exact H1|]. split; [exact H2|]. split; [exact H4|].
  rewrite H5. vm_compute. auto 20.
Defined.

(** ** The order of the keywords *)

Lemma parse_loop_keywords_length (i : nat) (l : list string) (st : ParseState) :
  length (keywords (parse_loop i l st)) <= length (keywords st) + length l.
Proof.
  revert i st. induction l as [|a l IH]; intros i st; simpl; [lia|].
  etransitivity; [apply IH|].
  unfold parse_step.
  destruct (Nat.eqb i 1); [simpl; lia|].
  destruct (outputFlagFound st); [simpl; lia|].
  destruct (is_output_flag a); simpl; [lia|].
  rewrite length_app. simpl. lia.
Qed.

Lemma parse_args_keywords_length (argValues : list string) :
  keywords (parse_args argValues) <> [] -> 3 <= length argValues.
Proof.
  unfold parse_args. intros Hk.
  destruct argValues as [|prog [|dir rest]]; try (exfalso; apply Hk; reflexivity).
  cbn [tl parse_loop] in Hk.
  pose proof (parse_loop_keywords_length 2 rest (parse_step 1 dir parse_init)) as H.
  change (keywords (parse_step 1 dir parse_init)) with (@nil string) in H.
  destruct (keywords (parse_loop 2 rest (parse_step 1 dir parse_init)));
    [congruence|].
  simpl in *. lia.
Qed.

(** Runs whose configurations differ only in the order of the keywords end
    with the same exit code and the same output file. *)
Lemma run_Permutation (debug : bool) (matches : string -> string -> bool)
      (prog prog' : string) (cfg cfg' : ParseState) (env : Env) :
  scanDirectory cfg = scanDirectory cfg' ->
  outputFileName cfg = outputFileName cfg' ->
  outputFlagFound cfg = outputFlagFound cfg' ->
  Permutation (keywords cfg) (keywords cfg') ->
  output_file (run debug matches prog cfg env)
  = output_file (run debug matches prog' cfg' env)
  /\ exit_code (run debug matches prog cfg env)
     = exit_code (run debug matches prog' cfg' env).
Proof.
  intros Hd Ho Hf HP. unfold run. rewrite <- Hd, <- Ho, <- Hf.
  destruct (String.eqb (scanDirectory cfg) EmptyString
            || negb (is_directory env (scanDirectory cfg))); [split; reflexivity|].
  pose proof (fun entries =>
                scan_directory_Permutation debug matches entries HP) as Hscan.
  destruct (keywords cfg) as [|k kws] eqn:Ek.
  - apply Permutation_nil in HP. rewrite HP. split; reflexivity.
  - destruct (keywords cfg') as [|k' kws'] eqn:Ek'.
    + apply Permutation_sym, Permutation_nil in HP. discriminate.
    + destruct (outputFlagFound cfg); [split; reflexivity|].
      destruct (recursive_directory_iterator env (scanDirectory cfg))
        as [entries ending].
      rewrite (Hscan entries).
      destruct (ofstream_is_open env (outputFileName cfg)); split; reflexivity.
Qed.

(** C8. Two command lines that give the same directory and the same [/o]
    pairs and whose keyword lists are permutations of each other produce the
    same report file (and the same exit code), whatever the scanned tree. *)
Theorem C8_keyword_order_irrelevant (argValues argValues' : list string)
        (env : Env) :
  let cfg := parse_args argValues in
  let cfg' := parse_args argValues' in
  scanDirectory cfg = scanDirectory cfg' ->
  outputFileName cfg = outputFileName cfg' ->
  outputFlagFound cfg = outputFlagFound cfg' ->
  Permutation (keywords cfg) (keywords cfg') ->
  output_file (main argValues env) = output_file (main argValues' env)
  /\ exit_code (main argValues env) = exit_code (main argValues' env).
Proof.
  intros cfg cfg' Hd Ho Hf HP.
  destruct (keywords cfg) as [|k kws] eqn:Ek.
  - (* no keyword on either side: both runs fail before the scan *)
    apply Permutation_nil in HP.
    assert (F : forall args,
               keywords (parse_args args) = [] ->
               output_file (main args env) = None
               /\ exit_code (main args env) = 1%Z).
    { intros args E. unfold main, main_variant, run.
      destruct (length args <? 3)%nat; [split; reflexivity|].
      destruct (String.eqb (scanDirectory (parse_args args)) EmptyString
                || negb (is_directory env (scanDirectory (parse_args args))));
        [split; reflexivity|].
      rewrite E. split; reflexivity. }
    destruct (F argValues Ek) as [-> ->].
    destruct (F argValues' HP) as [-> ->]. split; reflexivity.
  - assert (H3 : 3 <= length argValues).
    { apply parse_args_keywords_length. fold cfg. congruence. }
    assert (H3' : 3 <= length argValues').
    { apply parse_args_keywords_length. fold cfg'. intros E.
      rewrite E in HP. apply Permutation_sym, Permutation_nil in HP.
      discriminate. }
    unfold main, main_variant.
    destruct (Nat.ltb_spec (length argValues) 3) as [Hlt|_]; [lia|].
    destruct (Nat.ltb_spec (length argValues') 3) as [Hlt|_]; [lia|].
    apply run_Permutation; try assumption.
    fold cfg. rewrite Ek. exact HP.
Qed.

Lemma C8_keyword_order_irrelevant_witness :
  output_file (main ["app"; "./site"; "/o"; "results.txt"; "form"; "gallery"]
                    site_env)
  = output_file (main ["app"; "./site"; "gallery"; "form"; "/o"; "results.txt"]
                      site_env)
  /\ exit_code (main ["app"; "./site"; "/o"; "results.txt"; "form"; "gallery"]
                     site_env)
     = exit_code (main ["app"; "./site"; "gallery"; "form"; "/o"; "results.txt"]
                       site_env).
Proof.
  apply (@C8_keyword_order_irrelevant
           ["app"; "./site"; "/o"; "results.txt"; "form"; "gallery"]
           ["app"; "./site"; "gallery"; "form"; "/o"; "results.txt"]
           site_env).
  - reflexivity.
  - reflexivity.
  - reflexivity.
  - apply perm_swap.
Defined.

(** ** The two variants *)

Section Agreement.

Variables debug debug' : bool.
Variables matches matches' : string -> string -> bool.
Variable kws : list string.

Lemma scan_line_agree (ks found : list string) (line : string) :
  (forall k, In k ks -> matches k line = matches' k line) ->
  scan_line matches ks found line = scan_line matches' ks found line.
Proof.
  unfold scan_line. revert found.
  induction ks as [|k ks IH]; intros found H; simpl; [reflexivity|].
  rewrite (H k) by (left; reflexivity).
  apply IH. intros k' Hk'. apply H. right. assumption.
Qed.

Lemma keywordsFoundInFile_agree (content : string) :
  (forall k line,
      In k kws -> In line (getlines content) ->
      matches k line = matches' k line) ->
  keywordsFoundInFile matches kws content
  = keywordsFoundInFile matches' kws content.
Proof.
  unfold keywordsFoundInFile. generalize (@nil string).
  induction (getlines content) as [|l lines IH]; intros found H; simpl;
    [reflexivity|].
  rewrite (@scan_line_agree kws found l)
    by (intros k Hk; apply H; [assumption|left; reflexivity]).
  apply IH. intros k line Hk Hl. apply H; [assumption|right; assumption].
Qed.

(** If the two substring tests agree on every keyword and every line read,
    the two scans build the same index and issue the same warnings. *)
Lemma scan_directory_agree (entries : list dir_entry) :
  (forall e content k line,
      In e entries -> ifstream e = Some content ->
      In k kws -> In line (getlines content) ->
      matches k line = matches' k line) ->
  foundFilesByKeyword (scan_directory debug matches kws entries)
  = foundFilesByKeyword (scan_directory debug' matches' kws entries)
  /\ scan_err (scan_directory debug matches kws entries)
     = scan_err (scan_directory debug' matches' kws entries).
Proof.
  unfold scan_directory.
  assert (G : forall st st',
             foundFilesByKeyword st = foundFilesByKeyword st' ->
             scan_err st = scan_err st' ->
             (forall e content k line,
                 In e entries -> ifstream e = Some content ->
                 In k kws -> In line (getlines content) ->
                 matches k line = matches' k line) ->
             foundFilesByKeyword (fold_left (scan_entry debug matches kws) entries st)
             = foundFilesByKeyword (fold_left (scan_entry debug' matches' kws) entries st')
             /\ scan_err (fold_left (scan_entry debug matches kws) entries st)
                = scan_err (fold_left (scan_entry debug' matches' kws) entries st')).
  { induction entries as [|e entries' IH]; intros st st' Hi He H; simpl;
      [split; assumption|].
    assert (Hrest : forall e0 content k line,
               In e0 entries' -> ifstream e0 = Some content ->
               In k kws -> In line (getlines content) ->
               matches k line = matches' k line)
      by (intros; eapply H; eauto; right; assumption).
    unfold scan_entry at 2 4 6 8.
    destruct (is_html_candidate e); [|apply IH; assumption].
    set (st1 := if debug then say _ st else st).
    set (st1' := if debug' then say _ st' else st').
    assert (Hi1 : foundFilesByKeyword st1 = foundFilesByKeyword st1')
      by (subst st1 st1'; destruct debug, debug'; exact Hi).
    assert (He1 : scan_err st1 = scan_err st1')
      by (subst st1 st1'; destruct debug, debug'; exact He).
    destruct (ifstream e) as [content|] eqn:Ec.
    - rewrite <- (@keywordsFoundInFile_agree content)
        by (intros k line Hk Hl; eapply H; eauto; left; reflexivity).
      apply IH; try assumption.
      + rewrite !record_fold_index, Hi1. reflexivity.
      + rewrite !record_fold_err. exact He1.
    - apply IH; try assumption.
      unfold warn. cbn [scan_err]. rewrite He1. reflexivity. }
  intros H. apply G; auto.
Qed.

End Agreement.

Lemma line_matches_lowercase (k line : string) :
  ToLower k = k -> ToLower line = line ->
  line_matches k line = line_matches_cs k line.
Proof.
  intros Hk Hl. unfold line_matches, line_matches_cs. rewrite Hk, Hl.
  reflexivity.
Qed.

(** C9. On an input where lower-casing changes no keyword and no line read
    from a scanned file, the case-insensitive program and the case-sensitive
    draft build the same index and write the same report file (and end with
    the same exit code and the same records on the error stream). *)
Theorem C9_variants_agree_on_lowercase (argValues : list string) (env : Env) :
  let cfg := parse_args argValues in
  let entries := fst (recursive_directory_iterator env (scanDirectory cfg)) in
  (forall k, In k (keywords cfg) -> ToLower k = k) ->
  (forall e content line,
      In e entries -> ifstream e = Some content ->
      In line (getlines content) -> ToLower line = line) ->
  scan (keywords cfg) entries = scan_draft (keywords cfg) entries
  /\ output_file (main argValues env) = output_file (main_draft argValues env)
  /\ exit_code (main argValues env) = exit_code (main_draft argValues env)
  /\ cerr (main argValues env) = cerr (main_draft argValues env).
Proof.
  intros cfg entries Hk Hl.
  destruct (@scan_directory_agree true false line_matches line_matches_cs
              (keywords cfg) entries) as [Hidx Herr].
  { intros e content k line He Ec Hkw Hline.
    apply line_matches_lowercase; [apply Hk|eapply Hl]; eassumption. }
  split; [exact Hidx|].
  unfold main, main_draft, main_variant.
  destruct (length argValues <? 3)%nat; [repeat split|].
  unfold run. fold cfg.
  destruct (String.eqb (scanDirectory cfg) EmptyString
            || negb (is_directory env (scanDirectory cfg))); [repeat split|].
  destruct (keywords cfg) as [|k kws] eqn:Ek; [repeat split|].
  destruct (outputFlagFound cfg); [repeat split|].
  subst entries.
  destruct (recursive_directory_iterator env (scanDirectory cfg))
    as [entries ending].
  cbn [fst] in Hidx, Herr.
  destruct (ofstream_is_open env (outputFileName cfg));
    cbn [fatal output_file exit_code cerr]; rewrite ?Hidx, ?Herr; repeat split.
Qed.

Lemma C9_variants_agree_on_lowercase_witness :
  scan ["form"; "table"] lower_site = scan_draft ["form"; "table"] lower_site
  /\ output_file (main ["app"; "./lower"; "form"; "table"] lower_env)
     = output_file (main_draft ["app"; "./lower"; "form"; "table"] lower_env)
  /\ exit_code (main ["app"; "./lower"; "form"; "table"] lower_env)
     = exit_code (main_draft ["app"; "./lower"; "form"; "table"] lower_env)
  /\ cerr (main ["app"; "./lower"; "form"; "table"] lower_env)
     = cerr (main_draft ["app"; "./lower"; "form"; "table"] lower_env).
Proof.
  apply (@C9_variants_agree_on_lowercase
           ["app"; "./lower"; "form"; "table"] lower_env).
  - intros k [<-|[<-|[]]]; reflexivity.
  - intros e content line [<-|[]] Ec Hline.
    injection Ec as <-. vm_compute in Hline.
    destruct Hline as [<-|[<-|[]]]; reflexivity.
Defined.

(** On [site], where capitals occur, the two variants differ. *)
Example variants_differ_on_capitals :
  lookup "gallery" (scan ["gallery"] site)
  = ["./site/a.html"; "./site/sub/b.htm"]
  /\ lookup "gallery" (scan_draft ["gallery"] site) = ["./site/a.html"].
Proof. split; reflexivity. Qed.

(** ** The empty keyword *)

Lemma line_matches_empty (line : string) : line_matches "" line = true.
Proof.
  unfold line_matches, find. cbn [ToLower].
  destruct (ToLower line); reflexivity.
Qed.

(** C10. An empty argument is taken as a keyword like any other, and the
    empty keyword matches every line; so every candidate file that delivers
    at least one line is listed under the empty key. *)
Theorem C10_empty_keyword :
  (forall (i : nat) (st : ParseState),
      i <> 1 -> outputFlagFound st = false ->
      keywords (parse_step i "" st) = keywords st ++ [""])
  /\ (forall prog dir : string, keywords (parse_args [prog; dir; ""]) = [""])
  /\ (forall line : string, line_matches "" line = true)
  /\ (forall (kws : list string) (entries : list dir_entry)
             (e : dir_entry) (content : string),
         In "" kws -> In e entries -> is_html_candidate e = true ->
         ifstream e = Some content -> getlines content <> [] ->
         In "" (keys (scan kws entries))
         /\ In (path e) (lookup "" (scan kws entries))).
Proof.
  split; [|split; [|split]].
  - intros i st Hi Hf. unfold parse_step.
    destruct (Nat.eqb_spec i 1) as [E|_]; [contradiction|].
    rewrite Hf. reflexivity.
  - reflexivity.
  - exact line_matches_empty.
  - intros kws entries e content Hk He Hc Ec Hlines.
    assert (Hl : listed line_matches kws "" e = true).
    { apply listed_spec. repeat split; try assumption.
      destruct (getlines content) as [|line lines] eqn:El; [congruence|].
      exists content, line. rewrite El.
      repeat split; [assumption|left; reflexivity|apply line_matches_empty]. }
    unfold scan. split.
    + apply scan_directory_keys. exists e. auto.
    + rewrite scan_directory_lookup. apply in_map, filter_In. auto.
Qed.

Lemma C10_empty_keyword_witness :
  keywords (parse_step 2 "" parse_init) = keywords parse_init ++ [""]
  /\ In "" (keys (scan ["form"; ""] site))
  /\ In "./site/sub/b.htm" (lookup "" (scan ["form"; ""] site)).
Proof.
  split.
  - apply (proj1 C10_empty_keyword 2 parse_init).
    + discriminate.
    + reflexivity.
  - apply (proj2 (proj2 (proj2 C10_empty_keyword))
                 ["form"; ""] site
                 (nth 2 site (Build_dir_entry "" false None))
                 ("<div>" ++ nl ++ "GALLERY table" ++ nl)%string).
    + simpl. auto.
    + simpl. auto.
    + reflexivity.
    + reflexivity.
    + vm_compute. discriminate.
Defined.

(** A run with the empty keyword alone: the files that deliver a line are
    listed, the empty file and the file that cannot be opened are not. *)
Example main_empty_keyword :
  output_file (main ["app"; "./site"; ""] site_env)
  = Some ("output.txt",
          [ "Scan results for directory: /home/user/./site";
            "";
            separator;
            ("Files containing keyword: " ++ quoted "")%string;
            separator;
            "./site/a.html";
            "./site/sub/b.htm" ]).
Proof. reflexivity. Qed.


(** * Further properties of the code *)

(** ** Strings *)

Lemma sapp_assoc (a b c : string) :
  ((a ++ b) ++ c = a ++ (b ++ c))%string.
Proof. induction a as [|x a IH]; simpl; [reflexivity|]. rewrite IH. reflexivity. Qed.

Lemma sapp_nil_r (a : string) : (a ++ "")%string = a.
Proof. induction a as [|x a IH]; simpl; [reflexivity|]. rewrite IH. reflexivity. Qed.

Lemma tolower_idempotent (c : ascii) : tolower (tolower c) = tolower c.
Proof. destruct c as [[] [] [] [] [] [] [] []]; reflexivity. Qed.

Lemma ToLower_app (a b : string) :
  ToLower (a ++ b) = (ToLower a ++ ToLower b)%string.
Proof. induction a as [|x a IH]; simpl; [reflexivity|]. rewrite IH. reflexivity. Qed.

Lemma substring_of_trans (a b c : string) :
  substring_of a b -> substring_of b c -> substring_of a c.
Proof.
  intros (p & q & ->) (p' & q' & ->).
  exists (p' ++ p)%string, (q ++ q')%string.
  rewrite !sapp_assoc. reflexivity.
Qed.

Lemma substring_of_ToLower (a b : string) :
  substring_of a b -> substring_of (ToLower a) (ToLower b).
Proof.
  intros (p & q & ->). exists (ToLower p), (ToLower q).
  rewrite !ToLower_app. reflexivity.
Qed.

(** X1. [ToLower] is idempotent, keeps the length of its argument and
    distributes over concatenation. *)
Theorem ToLower_idempotent_length_app :
  (forall s, ToLower (ToLower s) = ToLower s)
  /\ (forall s, String.length (ToLower s) = String.length s)
  /\ (forall a b, ToLower (a ++ b) = (ToLower a ++ ToLower b)%string).
Proof.
  split; [|split].
  - induction s as [|c s IH]; simpl; [reflexivity|].
    rewrite tolower_idempotent, IH. reflexivity.
  - induction s as [|c s IH]; simpl; [reflexivity|]. rewrite IH. reflexivity.
  - exact ToLower_app.
Qed.

(** ** One keyword against another *)

(** If every line that passes the first test for [k] passes the second test
    for [k'], every path the first scan lists under [k] is listed by the
    second scan under [k']. *)
Lemma lookup_scan_incl (debug debug' : bool)
      (matches matches' : string -> string -> bool)
      (kws : list string) (entries : list dir_entry) (k k' f : string) :
  (forall line, matches k line = true -> matches' k' line = true) ->
  In k' kws ->
  In f (lookup k (foundFilesByKeyword
                    (scan_directory debug matches kws entries))) ->
  In f (lookup k' (foundFilesByKeyword
                     (scan_directory debug' matches' kws entries))).
Proof.
  intros Himp Hk'. rewrite !scan_directory_lookup, !in_map_iff.
  intros (e & Ep & He). exists e. split; [assumption|].
  apply filter_In in He. destruct He as [He Hl]. apply filter_In.
  split; [assumption|].
  apply listed_spec in Hl. destruct Hl as (Hc & _ & content & line & Ec & Hline & Hm).
  apply listed_spec. repeat split; try assumption.
  exists content, line. auto.
Qed.

(** X2. Two keywords of the command line that differ only in the case of
    their letters are separate keys, but list the same files in the same
    order. *)
Theorem case_variants_list_same_files (kws : list string)
        (entries : list dir_entry) (k k' : string) :
  ToLower k = ToLower k' -> In k kws -> In k' kws ->
  lookup k (scan kws entries) = lookup k' (scan kws entries).
Proof.
  intros E Hk Hk'. unfold scan. rewrite !scan_directory_lookup.
  f_equal. apply filter_ext. intros e.
  apply Bool.eq_iff_eq_true. rewrite !listed_spec.
  assert (F : forall line, line_matches k line = line_matches k' line)
    by (intros line; unfold line_matches; rewrite E; reflexivity).
  unfold file_matches. split.
  - intros (Hc & _ & content & line & Ec & Hl & Hm).
    repeat split; try assumption. exists content, line. rewrite <- F. auto.
  - intros (Hc & _ & content & line & Ec & Hl & Hm).
    repeat split; try assumption. exists content, line. rewrite F. auto.
Qed.

Lemma case_variants_list_same_files_witness :
  lookup "FORM" (scan ["form"; "FORM"] site)
  = lookup "form" (scan ["form"; "FORM"] site).
Proof.
  apply (@case_variants_list_same_files ["form"; "FORM"] site "FORM" "form").
  - reflexivity.
  - simpl. auto.
  - simpl. auto.
Defined.

(** X3. A keyword that is, up to case, a substring of another keyword lists
    every file the longer keyword lists. *)
Theorem substring_keyword_lists_more (kws : list string)
        (entries : list dir_entry) (k k' f : string) :
  substring_of (ToLower k) (ToLower k') -> In k kws ->
  In f (lookup k' (scan kws entries)) -> In f (lookup k (scan kws entries)).
Proof.
  intros Hsub Hk. unfold scan. apply lookup_scan_incl; [|assumption].
  intros line Hm. apply line_matches_spec in Hm. apply line_matches_spec.
  eapply substring_of_trans; eassumption.
Qed.

Lemma substring_keyword_lists_more_witness :
  In "./site/sub/b.htm" (lookup "Tab" (scan ["table"; "Tab"] site)).
Proof.
  apply (@substring_keyword_lists_more
           ["table"; "Tab"] site "Tab" "table" "./site/sub/b.htm").
  - exists EmptyString, "le". reflexivity.
  - simpl. auto.
  - vm_compute. auto.
Defined.

(** X4. Whatever the case-sensitive draft lists under a keyword, the
    case-insensitive program lists under it too. *)
Theorem draft_index_included (kws : list string) (entries : list dir_entry)
        (k f : string) :
  In f (lookup k (scan_draft kws entries)) -> In f (lookup k (scan kws entries)).
Proof.
  intros Hin.
  assert (Hk : In k kws).
  { unfold scan_draft in Hin. rewrite scan_directory_lookup in Hin.
    apply in_map_iff in Hin. destruct Hin as (e & _ & He).
    apply filter_In in He. destruct He as [_ Hl].
    apply listed_spec in Hl. tauto. }
  revert Hin. unfold scan, scan_draft. apply lookup_scan_incl; [|assumption].
  intros line Hm. apply line_matches_cs_spec in Hm. apply line_matches_spec.
  apply substring_of_ToLower. assumption.
Qed.

Lemma draft_index_included_witness :
  In "./site/a.html" (lookup "gallery" (scan ["gallery"] site)).
Proof.
  apply (@draft_index_included ["gallery"] site "gallery" "./site/a.html").
  vm_compute. auto.
Defined.

(** ** More on the parsing loop *)

(** X5. The scan directory is the argument at index 1 whatever it is and
    whatever follows it; [/o] in that place is a directory name, not the
    flag. *)
Theorem scanDirectory_is_first_argument (prog dir : string) (rest : list string) :
  scanDirectory (parse_args (prog :: dir :: rest)) = dir
  /\ parse_args (prog :: "/o" :: rest)
     = parse_loop 2 rest
         {| scanDirectory := "/o";
            outputFileName := "output.txt";
            keywords := [];
            outputFlagFound := false |}.
Proof.
  split; [|reflexivity].
  unfold parse_args. cbn [tl parse_loop].
  rewrite parse_loop_scanDirectory by lia. reflexivity.
Qed.

Lemma parse_loop_keywords_subsequence (i : nat) (l : list string)
      (st : ParseState) :
  2 <= i ->
  exists ks, keywords (parse_loop i l st) = keywords st ++ ks
             /\ subsequence ks l.
Proof.
  revert i st. induction l as [|a l IH]; intros i st Hi; simpl.
  - exists []. rewrite app_nil_r. split; [reflexivity|constructor].
  - destruct (IH (S i) (parse_step i a st)) as (ks & E & Hs); [lia|].
    rewrite E. unfold parse_step.
    destruct (Nat.eqb_spec i 1) as [->|_]; [lia|].
    destruct (outputFlagFound st);
      [exists ks; split; [reflexivity|constructor; assumption]|].
    destruct (is_output_flag a);
      [exists ks; split; [reflexivity|constructor; assumption]|].
    exists (a :: ks). cbn [keywords]. rewrite <- app_assoc.
    split; [reflexivity|constructor; assumption].
Qed.

Lemma parse_loop_outputFileName (i : nat) (l : list string) (st : ParseState) :
  2 <= i ->
  outputFileName (parse_loop i l st) = outputFileName st
  \/ In (outputFileName (parse_loop i l st)) l.
Proof.
  revert i st. induction l as [|a l IH]; intros i st Hi; simpl; [auto|].
  destruct (IH (S i) (parse_step i a st)) as [E|Hin]; [lia| |auto].
  rewrite E. unfold parse_step.
  destruct (Nat.eqb_spec i 1) as [->|_]; [lia|].
  destruct (outputFlagFound st); [auto|].
  destruct (is_output_flag a); auto.
Qed.

(** X6. The keywords are tokens of the command line after the directory, in
    command-line order and with their repetitions (a subsequence of them),
    and the output path is [output.txt] or one of those tokens. *)
Theorem keywords_subsequence_of_arguments (prog dir : string)
        (rest : list string) :
  subsequence (keywords (parse_args (prog :: dir :: rest))) rest
  /\ (outputFileName (parse_args (prog :: dir :: rest)) = "output.txt"
      \/ In (outputFileName (parse_args (prog :: dir :: rest))) rest).
Proof.
  unfold parse_args. cbn [tl parse_loop]. split.
  - destruct (@parse_loop_keywords_subsequence
                2 rest (parse_step 1 dir parse_init)) as (ks & E & Hs); [lia|].
    rewrite E. exact Hs.
  - apply (@parse_loop_outputFileName 2 rest (parse_step 1 dir parse_init)). lia.
Qed.

(** The state after the last token, when that token is not the flag. *)
Lemma parse_loop_last_plain (i : nat) (pre : list string) (a : string)
      (st : ParseState) :
  2 <= i -> is_output_flag a = false ->
  outputFlagFound (parse_loop i (pre ++ [a]) st) = false.
Proof.
  intros Hi Ha. rewrite parse_loop_app. cbn [parse_loop].
  generalize (parse_loop i pre st). intros st'. unfold parse_step.
  destruct (Nat.eqb_spec (length pre + i) 1) as [E|_]; [lia|].
  destruct (outputFlagFound st'); [reflexivity|].
  rewrite Ha. reflexivity.
Qed.

Lemma parse_loop_last_flag (i : nat) (pre : list string) (a : string)
      (st : ParseState) :
  2 <= i -> is_output_flag a = true ->
  outputFlagFound (parse_loop i (pre ++ [a]) st)
  = negb (outputFlagFound (parse_loop i pre st)).
Proof.
  intros Hi Ha. rewrite parse_loop_app. cbn [parse_loop].
  generalize (parse_loop i pre st). intros st'. unfold parse_step.
  destruct (Nat.eqb_spec (length pre + i) 1) as [E|_]; [lia|].
  destruct (outputFlagFound st'); [reflexivity|].
  rewrite Ha. reflexivity.
Qed.

(** X7. A command line whose last token (at index 2 or later) is not [/o] or
    [/O] never ends the parsing loop inside an [/o] pair; ending with the
    flag does so exactly when that flag is not itself read as a file name. *)
Theorem dangling_flag_needs_final_flag (prog dir : string)
        (pre : list string) (a : string) :
  (is_output_flag a = false ->
   outputFlagFound (parse_args (prog :: dir :: pre ++ [a])) = false)
  /\ (is_output_flag a = true ->
      outputFlagFound (parse_args (prog :: dir :: pre ++ [a]))
      = negb (outputFlagFound (parse_args (prog :: dir :: pre)))).
Proof.
  unfold parse_args. cbn [tl parse_loop]. split.
  - intros Ha. apply parse_loop_last_plain; [lia|assumption].
  - intros Ha. apply parse_loop_last_flag; [lia|assumption].
Qed.

Lemma dangling_flag_needs_final_flag_witness :
  outputFlagFound (parse_args ("app" :: "./site" :: ["/o"; "/o"] ++ ["x"]))
  = false
  /\ outputFlagFound (parse_args ("app" :: "./site" :: ["form"; "/o"] ++ ["/O"]))
     = negb (outputFlagFound (parse_args ("app" :: "./site" :: ["form"; "/o"]))).
Proof.
  split.
  - apply (proj1 (dangling_flag_needs_final_flag
                    "app" "./site" ["/o"; "/o"] "x")).
    reflexivity.
  - apply (proj2 (dangling_flag_needs_final_flag
                    "app" "./site" ["form"; "/o"] "/O")).
    reflexivity.
Defined.

(** ** More on the scan loop *)

Lemma scan_entry_err (debug : bool) (matches : string -> string -> bool)
      (kws : list string) (st : ScanState) (entry : dir_entry) :
  scan_err (scan_entry debug matches kws st entry)
  = scan_err st
    ++ (if unopenable entry
        then [("Warning: Could not open file: " ++ path entry)%string]
        else []).
Proof.
  unfold scan_entry, unopenable.
  destruct (is_html_candidate entry); cbn [andb];
    [|rewrite app_nil_r; reflexivity].
  assert (H1 : scan_err (if debug
                         then say ("[DEBUG] Scanning file: " ++ path entry) st
                         else st) = scan_err st)
    by (destruct debug; reflexivity).
  destruct (ifstream entry) as [content|].
  - rewrite record_fold_err, H1, app_nil_r. reflexivity.
  - unfold warn. cbn [scan_err]. rewrite H1. reflexivity.
Qed.

Lemma scan_fold_err (debug : bool) (matches : string -> string -> bool)
      (kws : list string) (entries : list dir_entry) (st : ScanState) :
  scan_err (fold_left (scan_entry debug matches kws) entries st)
  = scan_err st
    ++ map (fun e => ("Warning: Could not open file: " ++ path e)%string)
           (filter unopenable entries).
Proof.
  revert st. induction entries as [|e entries IH]; intros st; simpl.
  - rewrite app_nil_r. reflexivity.
  - rewrite IH, scan_entry_err, <- app_assoc.
    destruct (unopenable e); reflexivity.
Qed.

(** X8. The scan writes one warning for each candidate whose stream cannot be
    opened, in traversal order, and nothing else on the error stream; such a
    file does not stop the scan. *)
Theorem scan_warnings (debug : bool) (matches : string -> string -> bool)
        (kws : list string) (entries : list dir_entry) :
  scan_err (scan_directory debug matches kws entries)
  = map (fun e => ("Warning: Could not open file: " ++ path e)%string)
        (filter (fun e =>
                   is_html_candidate e
                   && match ifstream e with Some _ => false | None => true end)
                entries).
Proof. unfold scan_directory. rewrite scan_fold_err. reflexivity. Qed.

(** X9. Scanning a traversal that is one listing followed by another appends,
    under every keyword, the files of the second after the files of the
    first; a keyword is a key when it is one for either part. *)
Theorem scan_app (kws : list string) (entries entries' : list dir_entry)
        (k : string) :
  lookup k (scan kws (entries ++ entries'))
  = lookup k (scan kws entries) ++ lookup k (scan kws entries')
  /\ (In k (keys (scan kws (entries ++ entries')))
      <-> In k (keys (scan kws entries)) \/ In k (keys (scan kws entries'))).
Proof.
  unfold scan. split.
  - rewrite !scan_directory_lookup, filter_app, map_app. reflexivity.
  - rewrite !scan_directory_keys. split.
    + intros (e & He & Hl). apply in_app_or in He.
      destruct He; [left|right]; exists e; auto.
    + intros [(e & He & Hl)|(e & He & Hl)]; exists e;
        (split; [apply in_or_app; auto|assumption]).
Qed.

Lemma keywordsFoundInFile_same_elements (matches : string -> string -> bool)
      (kws kws' : list string) (content : string) :
  (forall k, In k kws <-> In k kws') ->
  keywordsFoundInFile matches kws content
  = keywordsFoundInFile matches kws' content.
Proof.
  intros H. apply ascending_ext; try apply keywordsFoundInFile_ascending.
  intros k. rewrite !keywordsFoundInFile_In, H. reflexivity.
Qed.

(** X10. The scan depends on the keywords only as a set: two keyword lists
    with the same elements, whatever their order and repetitions, give the
    same index, the same progress records and the same warnings. *)
Theorem scan_keywords_as_set (debug : bool) (matches : string -> string -> bool)
        (kws kws' : list string) (entries : list dir_entry) :
  (forall k, In k kws <-> In k kws') ->
  scan_directory debug matches kws entries
  = scan_directory debug matches kws' entries.
Proof.
  intros H. unfold scan_directory. generalize scan_init.
  induction entries as [|e entries IH]; intros st; simpl; [reflexivity|].
  rewrite IH. f_equal. unfold scan_entry.
  destruct (is_html_candidate e); [|reflexivity].
  destruct (ifstream e) as [content|]; [|reflexivity].
  rewrite (@keywordsFoundInFile_same_elements matches kws kws' content H).
  reflexivity.
Qed.

Lemma scan_keywords_as_set_witness :
  scan_directory true line_matches ["form"; "gallery"; "form"] site
  = scan_directory true line_matches ["gallery"; "form"] site.
Proof.
  apply (@scan_keywords_as_set true line_matches
           ["form"; "gallery"; "form"] ["gallery"; "form"] site).
  intros k. simpl. tauto.
Defined.

(** X11. A keyword is a key of the index exactly when it is on the command
    line and some candidate file delivers a line that contains it up to
    case; and no key has an empty list of files. *)
Theorem key_iff_some_file_matches (kws : list string) (entries : list dir_entry) :
  (forall k,
      In k (keys (scan kws entries))
      <-> In k kws
          /\ exists e content line,
               In e entries /\ is_html_candidate e = true
               /\ ifstream e = Some content
               /\ In line (getlines content)
               /\ substring_of (ToLower k) (ToLower line))
  /\ (forall k files, In (k, files) (scan kws entries) -> files <> []).
Proof.
  split.
  - intros k. unfold scan. rewrite scan_directory_keys. split.
    + intros (e & He & Hl). apply listed_spec in Hl.
      destruct Hl as (Hc & Hk & content & line & Ec & Hline & Hm).
      split; [assumption|]. exists e, content, line.
      rewrite <- line_matches_spec. auto 6.
    + intros (Hk & e & content & line & He & Hc & Ec & Hline & Hs).
      exists e. split; [assumption|]. apply listed_spec.
      repeat split; try assumption. exists content, line.
      rewrite line_matches_spec. auto.
  - intros k files Hin.
    destruct (scan_directory_ok true line_matches kws entries) as [_ Hi].
    unfold inhabited in Hi. rewrite Forall_forall in Hi.
    exact (Hi _ Hin).
Qed.

Lemma key_iff_some_file_matches_witness :
  ["./site/a.html"] <> [].
Proof.
  apply (proj2 (key_iff_some_file_matches ["gallery"; "form"] site)
               "form" ["./site/a.html"]).
  vm_compute. auto.
Defined.

(** X12. With distinct paths in the traversal, an entry that is not a
    candidate, or whose stream cannot be opened, or that delivers no byte,
    is listed under no keyword. *)
Theorem unread_files_never_listed (kws : list string)
        (entries : list dir_entry) (e : dir_entry) (k : string) :
  NoDup (map path entries) -> In e entries ->
  is_html_candidate e = false \/ ifstream e = None
  \/ ifstream e = Some EmptyString ->
  ~ In (path e) (lookup k (scan kws entries)).
Proof.
  intros Hnd He Hcase Hin. unfold scan in Hin.
  rewrite scan_directory_lookup in Hin.
  apply in_map_iff in Hin. destruct Hin as (e' & Ep & He').
  apply filter_In in He'. destruct He' as [He' Hl].
  assert (e' = e) as -> by (eapply NoDup_map_inj_In; eassumption).
  apply listed_spec in Hl.
  destruct Hl as (Hc & _ & content & line & Ec & Hline & _).
  destruct Hcase as [H|[H|H]]; try congruence.
  rewrite H in Ec. injection Ec as <-. exact Hline.
Qed.

Lemma unread_files_never_listed_witness :
  ~ In "./site/c.txt" (lookup "form" (scan ["form"] site))
  /\ ~ In "./site/locked.html" (lookup "form" (scan ["form"] site))
  /\ ~ In "./site/empty.html" (lookup "" (scan [""] site)).
Proof.
  split; [|split].
  - apply (@unread_files_never_listed
             ["form"] site (nth 4 site (Build_dir_entry "" false None)) "form").
    + apply distinct_NoDup. reflexivity.
    + simpl. auto 10.
    + left. reflexivity.
  - apply (@unread_files_never_listed
             ["form"] site (nth 5 site (Build_dir_entry "" false None)) "form").
    + apply distinct_NoDup. reflexivity.
    + simpl. auto 10.
    + right. left. reflexivity.
  - apply (@unread_files_never_listed
             [""] site (nth 6 site (Build_dir_entry "" false None)) "").
    + apply distinct_NoDup. reflexivity.
    + simpl. auto 10.
    + right. right. reflexivity.
Defined.

(** X13. Every file recorded under a keyword is announced on the standard
    output by a [Found "<keyword>" in: <path>] record. *)
Theorem recorded_files_are_announced (kws : list string)
        (entries : list dir_entry) (k p : string) :
  In p (lookup k (scan kws entries)) ->
  In ("Found " ++ String dquote (k ++ String dquote "") ++ " in: " ++ p)%string
     (scan_out (scan_directory true line_matches kws entries)).
Proof.
  unfold scan. rewrite scan_directory_lookup. intros Hin.
  apply in_map_iff in Hin. destruct Hin as (e & <- & He).
  apply filter_In in He. destruct He as [He Hl].
  unfold scan_directory. rewrite scan_fold_out. cbn [scan_init scan_out app].
  apply in_flat_map. exists e. split; [assumption|].
  unfold listed in Hl. unfold entry_out.
  destruct (is_html_candidate e); [|discriminate].
  destruct (ifstream e) as [content|]; [|discriminate].
  right. apply mem_In in Hl.
  apply (in_map (fun k0 => ("Found " ++ quoted k0 ++ " in: " ++ path e)%string)
                _ _ Hl).
Qed.

Lemma recorded_files_are_announced_witness :
  In ("Found " ++ String dquote ("FORM" ++ String dquote "")
        ++ " in: " ++ "./site/a.html")%string
     (scan_out (scan_directory true line_matches ["FORM"] site)).
Proof.
  apply (@recorded_files_are_announced ["FORM"] site "FORM" "./site/a.html").
  vm_compute. auto.
Defined.

(** ** More on [main] *)

Lemma valid_arguments_spec (argValues : list string) (env : Env) :
  valid_arguments argValues env = true
  <-> 3 <= length argValues
      /\ scanDirectory (parse_args argValues) <> ""
      /\ is_directory env (scanDirectory (parse_args argValues)) = true
      /\ keywords (parse_args argValues) <> []
      /\ outputFlagFound (parse_args argValues) = false.
Proof.
  unfold valid_arguments.
  rewrite !andb_true_iff, !negb_true_iff, Nat.leb_le, String.eqb_neq.
  destruct (keywords (parse_args argValues)) as [|k kws].
  - split; [intros [[_ H] _]; discriminate|].
    intros (_ & _ & _ & H & _). congruence.
  - split.
    + intros [[[[H1 H2] H3] _] H5]. repeat split; try assumption. discriminate.
    + intros (H1 & H2 & H3 & _ & H5). repeat split; assumption.
Qed.

(** What [main] does when the four tests pass. *)
Lemma main_valid (argValues : list string) (env : Env)
      (entries : list dir_entry) (ending : iteration_end) :
  valid_arguments argValues env = true ->
  recursive_directory_iterator env (scanDirectory (parse_args argValues))
  = (entries, ending) ->
  let cfg := parse_args argValues in
  let st := scan_directory true line_matches (keywords cfg) entries in
  main argValues env
  = if ofstream_is_open env (outputFileName cfg) then
      {| exit_code := 0;
         cout := (debug_banner cfg ++ banner env cfg ++ scan_out st)
                 ++ [ EmptyString;
                      ("Scan complete. Results saved to "
                         ++ outputFileName cfg)%string ];
         cerr := scan_err st ++ catch_line ending;
         output_file :=
           Some (outputFileName cfg,
                 report_lines (absolute env (scanDirectory cfg))
                              (foundFilesByKeyword st)) |}
    else
      fatal (debug_banner cfg ++ banner env cfg ++ scan_out st)
            ((scan_err st ++ catch_line ending)
               ++ [("Error: Could not open output file for writing: "
                      ++ outputFileName cfg)%string]).
Proof.
  intros Hv Hit cfg st. apply valid_arguments_spec in Hv.
  destruct Hv as (Hlen & Hdir & Hisdir & Hkws & Hflag).
  unfold main, main_variant.
  destruct (Nat.ltb_spec (length argValues) 3) as [Hlt|_]; [lia|].
  unfold run. fold cfg. fold cfg in Hdir, Hisdir, Hkws, Hflag, Hit.
  apply String.eqb_neq in Hdir. rewrite Hdir, Hisdir. cbn [orb negb].
  subst st.
  destruct (keywords cfg) as [|k kws] eqn:Ek; [congruence|].
  rewrite Hflag, Hit. reflexivity.
Qed.

(** What [main] does when one of the four tests fails. *)
Lemma main_invalid (argValues : list string) (env : Env) :
  valid_arguments argValues env = false ->
  exists msgs,
    main argValues env = fatal [] (msgs ++ PrintUsage (hd EmptyString argValues)).
Proof.
  unfold valid_arguments, main, main_variant, run. intros Hv.
  destruct (Nat.ltb_spec (length argValues) 3) as [Hlt|Hge].
  - exists []. reflexivity.
  - destruct (Nat.leb_spec 3 (length argValues)) as [_|Hlt]; [|lia].
    cbn [andb] in Hv.
    destruct (String.eqb (scanDirectory (parse_args argValues)) EmptyString);
      cbn [negb andb orb] in *; [eexists [_]; reflexivity|].
    destruct (is_directory env (scanDirectory (parse_args argValues)));
      cbn [negb andb orb] in *; [|eexists [_]; reflexivity].
    destruct (keywords (parse_args argValues)); [eexists [_]; reflexivity|].
    cbn [andb] in Hv.
    destruct (outputFlagFound (parse_args argValues)); [|discriminate].
    eexists [_]; reflexivity.
Qed.

(** For a run in which [is_directory] and [absolute] return: the exit code
    and the output file. *)
Lemma main_exit_code (argValues : list string) (env : Env) :
  (exit_code (main argValues env) = 0%Z \/ exit_code (main argValues env) = 1%Z)
  /\ (exit_code (main argValues env) = 0%Z
      <-> valid_arguments argValues env = true
          /\ ofstream_is_open env (outputFileName (parse_args argValues)) = true)
  /\ (exit_code (main argValues env) = 0%Z
      <-> output_file (main argValues env) <> None)
  /\ (valid_arguments argValues env = false ->
      cout (main argValues env) = []
      /\ exists msgs,
           cerr (main argValues env)
           = msgs ++ PrintUsage (hd EmptyString argValues)).
Proof.
  destruct (valid_arguments argValues env) eqn:Hv.
  - destruct (recursive_directory_iterator
                env (scanDirectory (parse_args argValues)))
      as [entries ending] eqn:Hit.
    rewrite (main_valid argValues env Hv Hit).
    destruct (ofstream_is_open env (outputFileName (parse_args argValues)));
      cbn [fatal exit_code output_file]; repeat split;
        try tauto; try discriminate; try (intros [_ H]; discriminate);
          try (intros H; exfalso; apply H; reflexivity); auto.
  - destruct (main_invalid argValues env Hv) as [msgs ->].
    cbn [fatal exit_code output_file cout cerr]. repeat split;
      try tauto; try discriminate; try (intros [H _]; discriminate);
        try (intros H; exfalso; apply H; reflexivity); eauto.
Qed.

(** For a run in which [is_directory] returns: a first argument that is
    empty or not a directory. *)
Lemma main_invalid_directory (argValues : list string) (env : Env) :
  3 <= length argValues ->
  scanDirectory (parse_args argValues) = ""
  \/ is_directory env (scanDirectory (parse_args argValues)) = false ->
  main argValues env
  = {| exit_code := 1;
       cout := [];
       cerr := "Error: The first argument must be a valid directory."
               :: PrintUsage (hd EmptyString argValues);
       output_file := None |}.
Proof.
  intros Hlen Hdir. unfold main, main_variant, run.
  destruct (Nat.ltb_spec (length argValues) 3) as [Hlt|_]; [lia|].
  assert (E : String.eqb (scanDirectory (parse_args argValues)) EmptyString
              || negb (is_directory env (scanDirectory (parse_args argValues)))
              = true).
  { destruct Hdir as [-> | ->]; [reflexivity|apply orb_true_r]. }
  rewrite E. reflexivity.
Qed.

(** A run that is not terminated is [main]. *)
Lemma main_process_returned (argValues : list string) (env : Env)
      (faults : Faults) (r : Outcome) :
  main_process argValues env faults = returned r -> r = main argValues env.
Proof.
  unfold main_process, main_process_variant, main.
  destruct (length argValues <? 3)%nat; [congruence|].
  destruct (negb (String.eqb (scanDirectory (parse_args argValues)) EmptyString)
            && is_directory_throws faults (scanDirectory (parse_args argValues)));
    [discriminate|].
  destruct (valid_arguments argValues env
            && absolute_throws faults (scanDirectory (parse_args argValues)));
    [discriminate|]. congruence.
Qed.

Lemma main_process_terminated_iff (argValues : list string) (env : Env)
      (faults : Faults) :
  (exists out err, main_process argValues env faults = terminated out err)
  <-> 3 <= length argValues
      /\ scanDirectory (parse_args argValues) <> ""
      /\ (is_directory_throws faults (scanDirectory (parse_args argValues)) = true
          \/ (valid_arguments argValues env = true
              /\ absolute_throws faults (scanDirectory (parse_args argValues))
                 = true)).
Proof.
  unfold main_process, main_process_variant.
  destruct (Nat.ltb_spec (length argValues) 3) as [Hlt|Hge].
  - split; [intros (out & err & E); discriminate|]. intros [H _]. lia.
  - destruct (String.eqb_spec (scanDirectory (parse_args argValues)) "")
      as [Hempty|Hdir]; cbn [negb andb].
    + assert (Hv : valid_arguments argValues env = false).
      { destruct (valid_arguments argValues env) eqn:Hv; [|reflexivity].
        apply valid_arguments_spec in Hv. tauto. }
      rewrite Hv. cbn [andb].
      split; [intros (out & err & E); discriminate|]. tauto.
    + destruct (is_directory_throws
                  faults (scanDirectory (parse_args argValues))).
      * split; [auto|]. intros _. eauto.
      * destruct (valid_arguments argValues env); cbn [andb].
        -- destruct (absolute_throws
                       faults (scanDirectory (parse_args argValues))).
           ++ split; [auto|]. intros _. eauto.
           ++ split; [intros (out & err & E); discriminate|].
              intros (_ & _ & [H|[_ H]]); discriminate.
        -- split; [intros (out & err & E); discriminate|].
           intros (_ & _ & [H|[H _]]); discriminate.
Qed.

(** X14. A run is terminated by an uncaught exception exactly when there are
    at least three arguments, the directory argument is not empty, and
    either [is_directory] throws on it or the four argument tests pass and
    [absolute] throws. A run that returns has exit code 0 or 1; the code is
    0 exactly when the four argument tests pass and the output file can be
    opened, which is also exactly when the output file is created; and when
    an argument test fails it has written nothing to the standard output and
    its error stream ends with the usage text. *)
Theorem process_exit_code (argValues : list string) (env : Env)
        (faults : Faults) :
  ((exists out err, main_process argValues env faults = terminated out err)
   <-> 3 <= length argValues
       /\ scanDirectory (parse_args argValues) <> ""
       /\ (is_directory_throws faults (scanDirectory (parse_args argValues))
           = true
           \/ (valid_arguments argValues env = true
               /\ absolute_throws faults (scanDirectory (parse_args argValues))
                  = true)))
  /\ (forall r,
         main_process argValues env faults = returned r ->
         (exit_code r = 0%Z \/ exit_code r = 1%Z)
         /\ (exit_code r = 0%Z
             <-> valid_arguments argValues env = true
                 /\ ofstream_is_open env (outputFileName (parse_args argValues))
                    = true)
         /\ (exit_code r = 0%Z <-> output_file r <> None)
         /\ (valid_arguments argValues env = false ->
             cout r = []
             /\ exists msgs,
                  cerr r = msgs ++ PrintUsage (hd EmptyString argValues))).
Proof.
  split; [apply main_process_terminated_iff|].
  intros r Hr. apply main_process_returned in Hr. subst r.
  apply main_exit_code.
Qed.

Lemma process_exit_code_witness :
  let r := main ["app"; "./site"; "form"] site_env in
  (exit_code r = 0%Z \/ exit_code r = 1%Z)
  /\ (exit_code r = 0%Z
      <-> valid_arguments ["app"; "./site"; "form"] site_env = true
          /\ ofstream_is_open site_env "output.txt" = true)
  /\ (exit_code r = 0%Z <-> output_file r <> None)
  /\ (valid_arguments ["app"; "./site"; "form"] site_env = false ->
      cout r = [] /\ exists msgs, cerr r = msgs ++ PrintUsage "app").
Proof.
  intros r.
  apply (proj2 (process_exit_code ["app"; "./site"; "form"] site_env no_faults)
               r).
  reflexivity.
Defined.

(** X15. With at least three arguments: if the first argument is empty, or
    [is_directory] returns false for it, the run returns with exit code 1,
    the "valid directory" error followed by the usage text, nothing on the
    standard output and no output file, whatever else is wrong with the
    command line; if the first argument is not empty and [is_directory]
    throws, the process is terminated before it has written anything. *)
Theorem process_invalid_directory (argValues : list string) (env : Env)
        (faults : Faults) :
  3 <= length argValues ->
  (scanDirectory (parse_args argValues) = ""
   \/ (is_directory_throws faults (scanDirectory (parse_args argValues)) = false
       /\ is_directory env (scanDirectory (parse_args argValues)) = false) ->
   main_process argValues env faults
   = returned
       {| exit_code := 1;
          cout := [];
          cerr := "Error: The first argument must be a valid directory."
                  :: PrintUsage (hd EmptyString argValues);
          output_file := None |})
  /\ (scanDirectory (parse_args argValues) <> "" ->
      is_directory_throws faults (scanDirectory (parse_args argValues)) = true ->
      main_process argValues env faults = terminated [] []).
Proof.
  intros Hlen. unfold main_process, main_process_variant.
  destruct (Nat.ltb_spec (length argValues) 3) as [Hlt|_]; [lia|].
  split.
  - intros Hcase.
    assert (Hv : valid_arguments argValues env = false).
    { destruct (valid_arguments argValues env) eqn:Hv; [|reflexivity].
      apply valid_arguments_spec in Hv.
      destruct Hv as (_ & Hd & Hi & _).
      destruct Hcase as [E|[_ E]]; congruence. }
    assert (Ht : negb (String.eqb (scanDirectory (parse_args argValues)) "")
                 && is_directory_throws
                      faults (scanDirectory (parse_args argValues)) = false).
    { destruct Hcase as [-> | [-> _]]; [reflexivity|apply andb_false_r]. }
    rewrite Ht, Hv. cbn [andb]. f_equal.
    apply main_invalid_directory; [assumption|].
    destruct Hcase as [E|[_ E]]; auto.
  - intros Hdir Hthrows. apply String.eqb_neq in Hdir.
    rewrite Hdir, Hthrows. reflexivity.
Qed.

Lemma process_invalid_directory_witness :
  main_process ["app"; "./nowhere"; "/o"] site_env deny_faults
  = returned
      {| exit_code := 1;
         cout := [];
         cerr := "Error: The first argument must be a valid directory."
                 :: PrintUsage "app";
         output_file := None |}
  /\ main_process ["app"; "./deny/priv/inner"; "form"] site_env deny_faults
     = terminated [] [].
Proof.
  assert (H3 : 3 <= 3) by lia.
  split.
  - apply (proj1 (@process_invalid_directory
                    ["app"; "./nowhere"; "/o"] site_env deny_faults H3)).
    right. split; reflexivity.
  - apply (proj2 (@process_invalid_directory
                    ["app"; "./deny/priv/inner"; "form"] site_env deny_faults
                    H3)).
    + discriminate.
    + reflexivity.
Defined.



(** X17. The report of a run is the three-record "no files" report exactly
    when no keyword of the command line occurs, up to case, in a line of a
    candidate file of the traversal. *)
Theorem no_files_report_iff (argValues : list string) (env : Env)
        (name : string) (lines : list string) :
  output_file (main argValues env) = Some (name, lines) ->
  let cfg := parse_args argValues in
  let entries := fst (recursive_directory_iterator env (scanDirectory cfg)) in
  lines = [ ("Scan results for directory: "
               ++ absolute env (scanDirectory cfg))%string;
            "";
            "No files were found containing the specified keywords." ]
  <-> (forall k e content line,
          In k (keywords cfg) -> In e entries ->
          is_html_candidate e = true -> ifstream e = Some content ->
          In line (getlines content) ->
          ~ substring_of (ToLower k) (ToLower line)).
Proof.
  intros H cfg entries.
  destruct (main_output_file _ _ H) as [_ Hlines].
  fold cfg in Hlines. fold entries in Hlines. rewrite Hlines.
  unfold report_lines.
  assert (Hkeys : forall k,
             In k (keys (scan (keywords cfg) entries))
             <-> exists e, In e entries
                           /\ listed line_matches (keywords cfg) k e = true)
    by (intros k; apply scan_directory_keys).
  destruct (scan (keywords cfg) entries) as [|[k0 files] index'] eqn:Es.
  - split; [|reflexivity].
    intros _ k e content line Hk He Hc Ec Hline Hs.
    apply (proj2 (Hkeys k)). exists e. split; [assumption|].
    apply listed_spec. repeat split; try assumption.
    exists content, line. rewrite line_matches_spec. auto.
  - split.
    + intros E. cbn [flat_map report_section app] in E. discriminate E.
    + intros Hno. exfalso.
      destruct (proj1 (Hkeys k0) (or_introl eq_refl)) as (e & He & Hl).
      apply listed_spec in Hl.
      destruct Hl as (Hc & Hk & content & line & Ec & Hline & Hm).
      apply (Hno k0 e content line); try assumption.
      apply line_matches_spec. assumption.
Qed.

Lemma no_files_report_iff_witness :
  [ "Scan results for directory: /home/user/./site";
    "";
    "No files were found containing the specified keywords." ]
  = [ ("Scan results for directory: " ++ "/home/user/./site")%string;
      "";
      "No files were found containing the specified keywords." ]
  <-> (forall k e content line,
          In k ["video"] -> In e site ->
          is_html_candidate e = true -> ifstream e = Some content ->
          In line (getlines content) ->
          ~ substring_of (ToLower k) (ToLower line)).
Proof.
  apply (@no_files_report_iff ["app"; "./site"; "video"] site_env
           "output.txt" _ eq_refl).
Defined.

(** ** The progress records of the two variants *)

Lemma scan_entry_out_plain (matches : string -> string -> bool)
      (kws : list string) (st : ScanState) (entry : dir_entry) :
  scan_out (scan_entry false matches kws st entry)
  = scan_out st ++ tl (entry_out matches kws entry).
Proof.
  unfold scan_entry, entry_out.
  destruct (is_html_candidate entry); [|rewrite app_nil_r; reflexivity].
  destruct (ifstream entry) as [content|].
  - rewrite record_fold_out. reflexivity.
  - cbn [warn scan_out tl]. rewrite app_nil_r. reflexivity.
Qed.

Lemma scan_fold_out_plain (matches : string -> string -> bool)
      (kws : list string) (entries : list dir_entry) (st : ScanState) :
  scan_out (fold_left (scan_entry false matches kws) entries st)
  = scan_out st ++ flat_map (fun e => tl (entry_out matches kws e)) entries.
Proof.
  revert st. induction entries as [|e entries IH]; intros st; simpl.
  - rewrite app_nil_r. reflexivity.
  - rewrite IH, scan_entry_out_plain, <- app_assoc. reflexivity.
Qed.

Lemma filter_found_records (p : string) (found : list string) :
  filter (fun l => negb (is_debug_record l))
         (map (fun k => ("Found " ++ quoted k ++ " in: " ++ p)%string) found)
  = map (fun k => ("Found " ++ quoted k ++ " in: " ++ p)%string) found.
Proof.
  induction found as [|k found IH]; [reflexivity|].
  cbn [map filter]. rewrite IH. reflexivity.
Qed.

Lemma filter_entry_out (matches : string -> string -> bool)
      (kws : list string) (entry : dir_entry) :
  filter (fun l => negb (is_debug_record l)) (entry_out matches kws entry)
  = tl (entry_out matches kws entry).
Proof.
  unfold entry_out.
  destruct (is_html_candidate entry); [|reflexivity].
  cbn [filter tl].
  change (is_debug_record ("[DEBUG] Scanning file: " ++ path entry)) with true.
  cbn [negb].
  destruct (ifstream entry) as [content|]; [|reflexivity].
  apply filter_found_records.
Qed.

(** X18. On an input where lower-casing changes no keyword and no line read,
    the progress records of the draft's scan are those of the
    case-insensitive scan without its [[DEBUG]] records. *)
Theorem draft_progress_is_progress_without_debug (kws : list string)
        (entries : list dir_entry) :
  (forall k, In k kws -> ToLower k = k) ->
  (forall e content line,
      In e entries -> ifstream e = Some content ->
      In line (getlines content) -> ToLower line = line) ->
  filter (fun l => negb (String.prefix "[DEBUG] " l))
         (scan_out (scan_directory true line_matches kws entries))
  = scan_out (scan_directory false line_matches_cs kws entries).
Proof.
  intros Hk Hl. unfold scan_directory.
  rewrite scan_fold_out, scan_fold_out_plain. cbn [scan_init scan_out app].
  induction entries as [|e entries IH]; [reflexivity|].
  cbn [flat_map].
  change (fun l => negb (String.prefix "[DEBUG] " l))
    with (fun l => negb (is_debug_record l)) in *.
  rewrite filter_app, filter_entry_out.
  rewrite IH by (intros; eapply Hl; eauto; right; assumption).
  f_equal. unfold entry_out.
  destruct (is_html_candidate e); [|reflexivity].
  destruct (ifstream e) as [content|] eqn:Ec; [|reflexivity].
  cbn [tl].
  rewrite (@keywordsFoundInFile_agree line_matches line_matches_cs kws content);
    [reflexivity|].
  intros k line Hkw Hline. apply line_matches_lowercase; [apply Hk; assumption|].
  eapply Hl; [left; reflexivity|eassumption|assumption].
Qed.

Lemma draft_progress_is_progress_without_debug_witness :
  filter (fun l => negb (String.prefix "[DEBUG] " l))
         (scan_out (scan_directory true line_matches ["form"; "table"] lower_site))
  = scan_out (scan_directory false line_matches_cs ["form"; "table"] lower_site).
Proof.
  apply (@draft_progress_is_progress_without_debug ["form"; "table"] lower_site).
  - intros k [<-|[<-|[]]]; reflexivity.
  - intros e content line [<-|[]] Ec Hline.
    injection Ec as <-. vm_compute in Hline.
    destruct Hline as [<-|[<-|[]]]; reflexivity.
Defined.

(** ** Lines *)

Lemma has_char_app (c : ascii) (a b : string) :
  has_char c (a ++ b) = has_char c a || has_char c b.
Proof.
  unfold has_char. induction a as [|x a IH];
    cbn [String.append list_ascii_of_string existsb]; [reflexivity|].
  rewrite IH. apply orb_assoc.
Qed.

Lemma getlines_cons_nonempty (c : ascii) (s : string) :
  getlines (String c s) <> [].
Proof. apply getlines_nonempty. discriminate. Qed.

Lemma getlines_no_newline (s : string) :
  Forall (fun l => has_char newline l = false) (getlines s).
Proof.
  induction s as [|c s IH]; cbn [getlines]; [constructor|].
  destruct (Ascii.eqb c newline) eqn:Ec.
  - constructor; [reflexivity|assumption].
  - destruct (getlines s) as [|l ls].
    + constructor; [|constructor]. unfold has_char.
      cbn [list_ascii_of_string existsb].
      rewrite (Ascii.eqb_sym newline c), Ec. reflexivity.
    + inversion IH as [|? ? Hl Hls]; subst. constructor; [|assumption].
      unfold has_char in *. cbn [list_ascii_of_string existsb].
      rewrite (Ascii.eqb_sym newline c), Ec. exact Hl.
Qed.

(** X19. The lines [std::getline] delivers contain no newline; written back
    with a newline after each they give the content again, with a newline
    added at its end if it had none; and a non-empty content without any
    newline is read as a single line. *)
Theorem getlines_unlines (s : string) :
  Forall (fun l => has_char newline l = false) (getlines s)
  /\ unlines (getlines s)
     = (if ends_with_newline s || String.eqb s "" then s
        else s ++ String newline "")%string
  /\ (s <> "" -> has_char newline s = false -> getlines s = [s]).
Proof.
  split; [apply getlines_no_newline|]. split.
  - induction s as [|c s IH]; [reflexivity|].
    cbn [getlines].
    destruct s as [|d s'].
    + cbn [getlines ends_with_newline].
      destruct (Ascii.eqb c newline) eqn:Ec; cbn [unlines orb String.eqb].
      * apply Ascii.eqb_eq in Ec. subst c. reflexivity.
      * reflexivity.
    + change (ends_with_newline (String c (String d s')))
        with (ends_with_newline (String d s')).
      assert (Hne : (String.eqb (String d s') "" = false)) by reflexivity.
      rewrite Hne, orb_false_r in IH.
      assert (Hne' : (String.eqb (String c (String d s')) "" = false))
        by reflexivity.
      rewrite Hne', orb_false_r.
      destruct (Ascii.eqb c newline) eqn:Ec.
      * apply Ascii.eqb_eq in Ec. subst c. cbn [unlines String.append].
        rewrite IH. destruct (ends_with_newline (String d s')); reflexivity.
      * destruct (getlines (String d s')) as [|l ls] eqn:El;
          [exfalso; exact (@getlines_cons_nonempty d s' El)|].
        cbn [unlines String.append] in *. rewrite IH.
        destruct (ends_with_newline (String d s')); reflexivity.
  - induction s as [|c s IH]; intros Hne Hnl; [congruence|].
    unfold has_char in Hnl. cbn [list_ascii_of_string existsb] in Hnl.
    apply orb_false_iff in Hnl.
    destruct Hnl as [Hc Hs]. cbn [getlines].
    rewrite (Ascii.eqb_sym c newline), Hc.
    destruct s as [|d s']; [reflexivity|].
    rewrite IH; [reflexivity|discriminate|exact Hs].
Qed.

Lemma getlines_unlines_witness :
  getlines "<html><body>form</body></html>"
  = ["<html><body>form</body></html>"].
Proof.
  apply (proj2 (proj2 (getlines_unlines "<html><body>form</body></html>"))).
  - discriminate.
  - reflexivity.
Defined.

(** ** Keywords that span lines *)

Lemma tolower_newline (c : ascii) :
  Ascii.eqb newline (tolower c) = Ascii.eqb newline c.
Proof. destruct c as [[] [] [] [] [] [] [] []]; reflexivity. Qed.

Lemma has_newline_ToLower (s : string) :
  has_char newline (ToLower s) = has_char newline s.
Proof.
  unfold has_char. induction s as [|c s IH];
    cbn [ToLower list_ascii_of_string existsb]; [reflexivity|].
  rewrite IH, tolower_newline. reflexivity.
Qed.

Lemma newline_keyword_not_listed (kws : list string) (k : string)
      (e : dir_entry) :
  has_char newline k = true -> listed line_matches kws k e = false.
Proof.
  intros Hk. destruct (listed line_matches kws k e) eqn:Hl; [|reflexivity].
  exfalso. apply listed_spec in Hl.
  destruct Hl as (_ & _ & content & line & _ & Hline & Hm).
  apply line_matches_spec in Hm. destruct Hm as (pre & post & E).
  pose proof (getlines_no_newline content) as Hno.
  rewrite Forall_forall in Hno. specialize (Hno _ Hline).
  rewrite <- has_newline_ToLower, E, !has_char_app, has_newline_ToLower, Hk in Hno.
  rewrite orb_true_r in Hno. discriminate.
Qed.

(** X20. Matching is per line: a keyword that contains a newline is found in
    no file, so it lists nothing and gets no section. *)
Theorem keyword_with_newline_never_matches (kws : list string)
        (entries : list dir_entry) (k : string) :
  has_char newline k = true ->
  lookup k (scan kws entries) = [] /\ ~ In k (keys (scan kws entries)).
Proof.
  intros Hk. unfold scan. split.
  - rewrite scan_directory_lookup.
    induction entries as [|e entries IH]; [reflexivity|].
    cbn [filter]. rewrite (newline_keyword_not_listed kws k e Hk). exact IH.
  - rewrite scan_directory_keys. intros (e & _ & Hl).
    rewrite (newline_keyword_not_listed kws k e Hk) in Hl. discriminate.
Qed.

Lemma keyword_with_newline_never_matches_witness :
  lookup ("<p>gallery</p>" ++ nl ++ "<FORM")%string
         (scan [("<p>gallery</p>" ++ nl ++ "<FORM")%string] site) = []
  /\ ~ In ("<p>gallery</p>" ++ nl ++ "<FORM")%string
          (keys (scan [("<p>gallery</p>" ++ nl ++ "<FORM")%string] site)).
Proof.
  apply (@keyword_with_newline_never_matches
           [("<p>gallery</p>" ++ nl ++ "<FORM")%string] site
           ("<p>gallery</p>" ++ nl ++ "<FORM")%string).
  reflexivity.
Defined.

(** ** File names of the candidates *)

Lemma length_sapp (a b : string) :
  String.length (a ++ b) = String.length a + String.length b.
Proof. induction a as [|x a IH]; simpl; [reflexivity|]. rewrite IH. reflexivity. Qed.

Lemma last_dot_suffix (s e : string) :
  last_dot s = Some e -> exists pre, s = (pre ++ e)%string.
Proof.
  revert e. induction s as [|c s IH]; intros e; cbn [last_dot]; [discriminate|].
  destruct (last_dot s) as [e'|].
  - intros E. injection E as <-. destruct (IH e' eq_refl) as [pre ->].
    exists (String c pre). reflexivity.
  - destruct (Ascii.eqb c dot); [|discriminate].
    intros E. injection E as <-. exists EmptyString. reflexivity.
Qed.

Lemma last_dot_app (s e : string) :
  last_dot e = Some e -> last_dot (s ++ e) = Some e.
Proof.
  intros He. induction s as [|c s IH]; cbn [String.append last_dot];
    [assumption|].
  rewrite IH. reflexivity.
Qed.

(** The extension of a path, read off its file name. *)
Lemma extension_of_filename (p ext stem : string) :
  last_dot ext = Some ext -> 4 <= String.length ext -> stem <> "" ->
  filename p = (stem ++ ext)%string -> extension p = ext.
Proof.
  intros Hext Hlen Hstem Hf. unfold extension. rewrite Hf.
  assert (H1 : String.eqb (stem ++ ext) "." = false).
  { apply String.eqb_neq. intros E. apply (f_equal String.length) in E.
    rewrite length_sapp in E. simpl in E. lia. }
  assert (H2 : String.eqb (stem ++ ext) ".." = false).
  { apply String.eqb_neq. intros E. apply (f_equal String.length) in E.
    rewrite length_sapp in E. simpl in E. lia. }
  rewrite H1, H2. cbn [orb].
  destruct stem as [|c stem']; [congruence|].
  cbn [String.append]. rewrite (last_dot_app stem' Hext). reflexivity.
Qed.

Lemma filename_of_extension (p ext : string) :
  ext <> "" -> extension p = ext ->
  exists stem, stem <> "" /\ filename p = (stem ++ ext)%string.
Proof.
  unfold extension. intros Hne.
  destruct (String.eqb (filename p) "." || String.eqb (filename p) "..");
    [congruence|].
  destruct (filename p) as [|c rest]; [congruence|].
  destruct (last_dot rest) as [e|] eqn:El; [|congruence].
  intros ->. destruct (last_dot_suffix _ El) as [pre ->].
  exists (String c pre). split; [discriminate|reflexivity].
Qed.

(** X21. An entry is scanned exactly when it is a regular file whose file
    name is a non-empty stem followed by [.html] or [.htm] (a file named
    just [.html] is not); the file name of [dir/name] is [name] when [name]
    has no slash. *)
Theorem candidate_iff_file_name :
  (forall e : dir_entry,
      is_html_candidate e = true
      <-> is_regular_file e = true
          /\ exists stem,
               stem <> ""
               /\ (filename (path e) = (stem ++ ".html")%string
                   \/ filename (path e) = (stem ++ ".htm")%string))
  /\ (forall dir name : string,
         has_char slash name = false ->
         filename (dir ++ String slash name) = name).
Proof.
  split; [|exact filename_after_slash].
  intros e. rewrite is_html_candidate_spec. split.
  - intros [Hreg [Hext|Hext]]; split; try assumption.
    + destruct (@filename_of_extension (path e) ".html") as (stem & Hs & Hf);
        [discriminate|assumption|]. eauto.
    + destruct (@filename_of_extension (path e) ".htm") as (stem & Hs & Hf);
        [discriminate|assumption|]. eauto.
  - intros [Hreg (stem & Hs & [Hf|Hf])]; split; try assumption.
    + left. apply (@extension_of_filename (path e) ".html" stem);
        [reflexivity|simpl; lia|assumption|assumption].
    + right. apply (@extension_of_filename (path e) ".htm" stem);
        [reflexivity|simpl; lia|assumption|assumption].
Qed.

Lemma candidate_iff_file_name_witness :
  filename ("./site/sub" ++ String slash "b.htm") = "b.htm".
Proof.
  apply (proj2 candidate_iff_file_name "./site/sub" "b.htm").
  reflexivity.
Defined.

(** A regular file named just [.html] has no extension and is skipped. *)
Example hidden_html_file_skipped :
  is_html_candidate
    {| path := "./site/.html"; is_regular_file := true; ifstream := Some "form" |}
  = false.
Proof. reflexivity. Qed.
